(** * ImageList: padded image batches with a patch-level attention mask

    A shallow embedding of [vgt_inference/ditod/imagelist.py] (eager mode,
    i.e. neither [torch.jit.is_scripting()] nor [torch.jit.is_tracing()]),
    and the properties of it that the design document states.

    Conventions of the embedding.
    - A [torch.Tensor] of rank >= 2 is a record of its shape (leading
      dimensions, height, width), its elements (one 2-D plane per index of
      the leading dimensions, in row-major order) and its device.  The
      element type is a parameter: the code never computes with pixels.
    - Shapes are natural numbers and Python integers are in [Z].  The
      shape tensor [max_size] is an int64 tensor: storing an integer
      outside int64 in it raises, and its arithmetic wraps around.  The
      padding amounts of lines 119-124 and 156 are int64 differences as
      well; one wraps only where the padded size is negative, and [F.pad]
      raises there with or without the wrap, so they are taken in [Z].
    - The float32 values of the validity map are 0, 1, block means and
      -1e6.  They are modelled by rationals: every comparison the code
      makes on them ([> 0]) has the same outcome on the exact value, and
      0, 1 and -1e6 are exact in float32.  The sign of a float zero is not
      modelled: [(1 - 1) * -1e6] is [-0.0], which is equal to 0.
    - A Python exception is a value of [exn]; a computation that may raise
      is in the monad [result]. *)

From Stdlib Require Import ZArith QArith Lia.
From stdpp Require Import base tactics option list gmap strings.

Local Open Scope Z_scope.
Local Close Scope Q_scope.

(** ** Exceptions and the [result] monad *)

(** [AssertionError args]: [assert cond, msg] carries [msg] (here always a
    shape) in [args]; [assert cond] carries nothing. *)
Inductive exn : Type :=
  | AssertionError (args : list (list nat))
  | IndexError
  | RuntimeError.

Inductive result (T : Type) : Type :=
  | Ok (v : T)
  | Raise (e : exn).
Arguments Ok {T} v.
Arguments Raise {T} e.

#[global] Instance result_ret : MRet result := fun _ v => Ok v.
#[global] Instance result_bind : MBind result := fun _ _ f m =>
  match m with
  | Ok v => f v
  | Raise e => Raise e
  end.
#[global] Instance result_fmap : FMap result := fun _ _ f m =>
  match m with
  | Ok v => Ok (f v)
  | Raise e => Raise e
  end.

Definition is_Ok {T} (r : result T) : Prop := exists v, r = Ok v.

(** ** int64 *)

Definition int64_min : Z := - 2 ^ 63.
Definition int64_max : Z := 2 ^ 63 - 1.

Definition in_int64 (z : Z) : bool := (int64_min <=? z) && (z <=? int64_max).

(** Two's-complement wrap-around of int64 arithmetic. *)
Definition wrap64 (z : Z) : Z := (z + 2 ^ 63) mod 2 ^ 64 - 2 ^ 63.

(** A Python integer stored in, or combined with, an int64 tensor: the
    tensor library raises when it does not fit. *)
Definition int64_checked (z : Z) : result Z :=
  if in_int64 z then Ok z else Raise RuntimeError.

(** ** Tensors *)

Inductive device : Type :=
  | cpu
  | cuda (index : nat).

#[global] Instance device_eq_dec : EqDecision device.
Proof. solve_decision. Defined.

Record Tensor (A : Type) : Type := mkTensor {
  t_lead : list nat;                 (* shape[:-2] *)
  t_h : nat;                         (* shape[-2] *)
  t_w : nat;                         (* shape[-1] *)
  t_planes : list (list (list A));   (* one H x W plane per leading index *)
  t_device : device;
}.
Arguments mkTensor {A} _ _ _ _ _.
Arguments t_lead {A} _.
Arguments t_h {A} _.
Arguments t_w {A} _.
Arguments t_planes {A} _.
Arguments t_device {A} _.

Definition prod_list (l : list nat) : nat := foldr Nat.mul 1%nat l.

(** [t.shape] *)
Definition shape {A} (t : Tensor A) : list nat := t_lead t ++ [t_h t; t_w t].

(** The elements agree with the shape. *)
Definition wf_plane {A} (h w : nat) (p : list (list A)) : Prop :=
  length p = h /\ Forall (fun row => length row = w) p.

Definition wf_tensor {A} (t : Tensor A) : Prop :=
  length (t_planes t) = prod_list (t_lead t) /\
  Forall (wf_plane (t_h t) (t_w t)) (t_planes t).

Section TensorOps.
Context {A : Type}.

(** One axis of [F.pad(..., mode="constant")]: [before] and [after]
    elements are added at the two ends; a negative amount removes
    elements there. *)
Definition pad_axis {B} (before after : Z) (fill : B) (l : list B) : list B :=
  let l1 := if before <? 0 then drop (Z.to_nat (- before)) l
            else replicate (Z.to_nat before) fill ++ l in
  resize (Z.to_nat (Z.of_nat (length l1) + after)) fill l1.

(** [F.pad(t, [left, right, top, bottom], value=value)]: pads the last
    two dimensions; raises when a resulting size is negative. *)
Definition pad (t : Tensor A) (padding : Z * Z * Z * Z) (value : A)
  : result (Tensor A) :=
  let '(pl, pr, pt, pb) := padding in
  let w' := Z.of_nat (t_w t) + pl + pr in
  let h' := Z.of_nat (t_h t) + pt + pb in
  if (w' <? 0) || (h' <? 0) then Raise RuntimeError
  else Ok {| t_lead := t_lead t;
             t_h := Z.to_nat h';
             t_w := Z.to_nat w';
             t_planes :=
               (fun p => pad_axis pt pb (replicate (Z.to_nat w') value)
                           (pad_axis pl pr value <$> p))
               <$> t_planes t;
             t_device := t_device t |}.

(** [t.unsqueeze(0)] *)
Definition unsqueeze0 (t : Tensor A) : Tensor A :=
  {| t_lead := 1%nat :: t_lead t; t_h := t_h t; t_w := t_w t;
     t_planes := t_planes t; t_device := t_device t |}.

(** [like.new_full(lead + [h, w], value)] *)
Definition new_full (like : Tensor A) (lead : list nat) (h w : Z) (value : A)
  : result (Tensor A) :=
  if (h <? 0) || (w <? 0) then Raise RuntimeError
  else Ok {| t_lead := lead; t_h := Z.to_nat h; t_w := Z.to_nat w;
             t_planes := replicate (prod_list lead)
                           (replicate (Z.to_nat h)
                              (replicate (Z.to_nat w) value));
             t_device := t_device like |}.

(** [t.to(d)] *)
Definition tensor_to (t : Tensor A) (d : device) : Tensor A :=
  {| t_lead := t_lead t; t_h := t_h t; t_w := t_w t;
     t_planes := t_planes t; t_device := d |}.

(** [move_device_like(src, dst)] is [src.to(dst.device)] in eager mode. *)
Definition move_device_like (src dst : Tensor A) : Tensor A :=
  tensor_to src (t_device dst).

(** The planes of [t[i]]: the [i]-th block of [p] planes. *)
Definition sub_planes {B} (p i : nat) (l : list B) : list B :=
  take p (drop (i * p) l).

(** Writing [src] over the top-left [sh] x [sw] corner of [dst]. *)
Definition overlay_plane (sh sw : nat) (src dst : list (list A))
  : list (list A) :=
  zip_with (fun s d => take sw s ++ drop sw d) (take sh src) (take sh dst)
    ++ drop sh dst.

(** [dst[i, ..., :img.shape[-2], :img.shape[-1]].copy_(img)].
    The slices clamp to the size of [dst]; [copy_] raises unless [img]
    broadcasts to the shape of the slice.  The leading dimensions are
    required equal (the caller has asserted it), so a dimension of
    [img] can only broadcast when it is 1 and the slice is empty there. *)
Definition copy_into (dst : Tensor A) (i : nat) (img : Tensor A)
  : result (Tensor A) :=
  match t_lead dst with
  | [] => Raise IndexError
  | n :: lead =>
      if negb (i <? n)%nat then Raise IndexError else
      let sh := Nat.min (t_h img) (t_h dst) in
      let sw := Nat.min (t_w img) (t_w dst) in
      if bool_decide (t_lead img = lead)
         && ((t_h img =? sh)%nat || (t_h img =? 1)%nat && (sh =? 0)%nat)
         && ((t_w img =? sw)%nat || (t_w img =? 1)%nat && (sw =? 0)%nat)
      then
        let p := prod_list lead in
        Ok {| t_lead := t_lead dst; t_h := t_h dst; t_w := t_w dst;
              t_planes :=
                take (i * p) (t_planes dst)
                ++ zip_with (overlay_plane sh sw) (t_planes img)
                     (sub_planes p i (t_planes dst))
                ++ drop (i * p + p) (t_planes dst);
              t_device := t_device dst |}
      else Raise RuntimeError
  end.

(** Python's index normalisation: [l[idx]] for a sequence of length [n]. *)
Definition py_index (idx : Z) (n : nat) : result nat :=
  if (0 <=? idx) && (idx <? Z.of_nat n) then Ok (Z.to_nat idx)
  else if (- Z.of_nat n <=? idx) && (idx <? 0)
       then Ok (Z.to_nat (Z.of_nat n + idx))
       else Raise IndexError.

(** The length of [l[:k]] for a sequence of length [n]. *)
Definition py_slice_to (k : Z) (n : nat) : nat :=
  if k <? 0 then Z.to_nat (Z.max 0 (Z.of_nat n + k))
  else Nat.min (Z.to_nat k) n.

(** [t[idx, ..., :s0, :s1]] *)
Definition index_crop (t : Tensor A) (idx s0 s1 : Z) : result (Tensor A) :=
  match t_lead t with
  | [] => Raise IndexError
  | n :: lead =>
      i ← py_index idx n;
      let h := py_slice_to s0 (t_h t) in
      let w := py_slice_to s1 (t_w t) in
      Ok {| t_lead := lead; t_h := h; t_w := w;
            t_planes := (fun p => take w <$> take h p)
                        <$> sub_planes (prod_list lead) i (t_planes t);
            t_device := t_device t |}
  end.
End TensorOps.

(** ** The validity map and its pooling (float32 tensors) *)

Definition sumQ (l : list Q) : Q := foldr Qplus 0%Q l.

(** [x > y] on floats *)
Definition Qgtb (x y : Q) : bool :=
  match Qcompare x y with
  | Gt => true
  | _ => false
  end.

(** [torch.ones((h, w), device=d)] *)
Definition ones (h w : nat) (d : device) : Tensor Q :=
  {| t_lead := []; t_h := h; t_w := w;
     t_planes := [replicate h (replicate w 1%Q)]; t_device := d |}.

(** The mean of the [k] x [k] block at block position ([r], [c]). *)
Definition block_mean (k : nat) (p : list (list Q)) (r c : nat) : Q :=
  (sumQ ((fun row => sumQ (take k (drop (c * k) row)))
           <$> take k (drop (r * k) p))
   / inject_Z (Z.of_nat (k * k)))%Q.

(** [F.avg_pool2d(t, kernel_size=k)]: stride [k], no padding, floor mode.
    The input is (N, C, H, W) or (C, H, W); an output dimension is
    [floor((size - k) / k) + 1], and the call raises when one is below 1. *)
Definition avg_pool2d (t : Tensor Q) (kernel_size : Z) : result (Tensor Q) :=
  if negb (bool_decide (length (t_lead t) = 1 \/ length (t_lead t) = 2))%nat
  then Raise RuntimeError
  else if kernel_size <=? 0 then Raise RuntimeError
  else
    let oh := (Z.of_nat (t_h t) - kernel_size) / kernel_size + 1 in
    let ow := (Z.of_nat (t_w t) - kernel_size) / kernel_size + 1 in
    if (oh <? 1) || (ow <? 1) then Raise RuntimeError
    else
      let k := Z.to_nat kernel_size in
      Ok {| t_lead := t_lead t; t_h := Z.to_nat oh; t_w := Z.to_nat ow;
            t_planes :=
              (fun p => (fun r => block_mean k p r <$> seq 0 (Z.to_nat ow))
                        <$> seq 0 (Z.to_nat oh))
              <$> t_planes t;
            t_device := t_device t |}.

(** An elementwise operation, such as [(t > 0).float()]. *)
Definition tensor_map {B C} (f : B -> C) (t : Tensor B) : Tensor C :=
  {| t_lead := t_lead t; t_h := t_h t; t_w := t_w t;
     t_planes := (fun p : list (list B) =>
                    (fun row : list B => f <$> row) <$> p) <$> t_planes t;
     t_device := t_device t |}.

(** A 1-D float tensor: its elements and its device. *)
Record Vector : Type := mkVector {
  v_elems : list Q;
  v_device : device;
}.

(** [t.view(-1)]: the elements in row-major order, on the device of [t].
    The [squeeze()] before it only drops the dimensions of size 1, which
    changes neither the elements nor their order, so it is not modelled
    apart. *)
Definition view_flat (t : Tensor Q) : Vector :=
  mkVector (concat (concat (t_planes t))) (t_device t).

(** [torch.cat([a, b])] of 1-D tensors: raises when they are on different
    devices. *)
Definition cat (a b : Vector) : result Vector :=
  if bool_decide (v_device a = v_device b)
  then Ok (mkVector (v_elems a ++ v_elems b) (v_device a))
  else Raise RuntimeError.

(** An elementwise operation on a 1-D tensor. *)
Definition vector_map (f : Q -> Q) (v : Vector) : Vector :=
  mkVector (f <$> v_elems v) (v_device v).

(** [torch.stack(rows, dim=0)] of 1-D tensors: raises on an empty list, on
    rows of different lengths and on rows on different devices; the
    result is on the rows' device. *)
Definition stack_rows (rows : list Vector) : result (Tensor Q) :=
  match rows with
  | [] => Raise RuntimeError
  | r0 :: _ =>
      if forallb (fun r => (length (v_elems r) =? length (v_elems r0))%nat
                           && bool_decide (v_device r = v_device r0)) rows
      then Ok {| t_lead := []; t_h := length rows;
                 t_w := length (v_elems r0);
                 t_planes := [v_elems <$> rows];
                 t_device := v_device r0 |}
      else Raise RuntimeError
  end.

Definition large_neg_val : Q := (-1000000 # 1)%Q.

Section ImageList.
Context {A : Type}.

(** The body of the loop of [create_attention_mask] for one image. *)
Definition attention_mask_1d (img : Tensor A) (max_size : Z * Z)
    (patch_size : Z) : result Vector :=
  let orig_size := (t_h img, t_w img) in
  let mask := ones orig_size.1 orig_size.2 (t_device img) in
  let pad_size := (0, max_size.2 - Z.of_nat orig_size.2,
                   0, max_size.1 - Z.of_nat orig_size.1) in
  padded_mask ← pad mask pad_size 0%Q;
  pooled_mask ← avg_pool2d (unsqueeze0 (unsqueeze0 padded_mask)) patch_size;
  let pooled_mask :=
    tensor_map (fun v : Q => if Qgtb v 0 then 1%Q else 0%Q) pooled_mask in
  let attention_mask_1d := view_flat pooled_mask in
  attention_mask_1d ← cat (mkVector [1%Q] (t_device img)) attention_mask_1d;
  let attention_mask_1d :=
    vector_map (fun v => ((1 - v) * large_neg_val)%Q) attention_mask_1d in
  Ok attention_mask_1d.

Definition create_attention_mask (tensors : list (Tensor A))
    (max_size : Z * Z) (patch_size : Z) : result (Tensor Q) :=
  attention_masks ← mapM (fun img => attention_mask_1d img max_size patch_size)
                      tensors;
  stack_rows attention_masks.

Record ImageList : Type := mkImageList {
  tensor : Tensor A;
  padding_mask : Tensor Q;
  image_sizes : list (Z * Z);
}.

(** [__len__] *)
Definition len (self : ImageList) : nat := length (image_sizes self).

(** [l[idx]] on a Python list *)
Definition list_getitem {B} (l : list B) (idx : Z) : result B :=
  i ← py_index idx (length l);
  match l !! i with
  | Some x => Ok x
  | None => Raise IndexError
  end.

(** [__getitem__] for an integer index. *)
Definition getitem (self : ImageList) (idx : Z) : result (Tensor A) :=
  size ← list_getitem (image_sizes self) idx;
  index_crop (tensor self) idx size.1 size.2.

(** [to(device)] *)
Definition to (self : ImageList) (d : device) : ImageList :=
  let cast_tensor := tensor_to (tensor self) d in
  mkImageList cast_tensor (padding_mask self) (image_sizes self).

(** The [device] property: [self.tensor.device]. *)
Definition get_device (self : ImageList) : device := t_device (tensor self).

(** Line 91: [[(im.shape[-2], im.shape[-1]) for im in tensors]] *)
Definition image_sizes_of (tensors : list (Tensor A)) : list (Z * Z) :=
  (fun im => (Z.of_nat (t_h im), Z.of_nat (t_w im))) <$> tensors.

(** Lines 92-107: the padded target size [(Hmax, Wmax)] and the
    [size_divisibility] in force. *)
Definition effective_divisibility (size_divisibility : Z)
    (padding_constraints : option (gmap string Z)) : Z :=
  match padding_constraints with
  | Some pc => default size_divisibility (pc !! "size_divisibility")
  | None => size_divisibility
  end.

(** [torch.stack(image_sizes_tensor).max(0).values], on sizes that are
    in int64 *)
Definition max_hw (image_sizes : list (Z * Z)) : Z * Z :=
  foldr (fun s m => (Z.max s.1 m.1, Z.max s.2 m.2))
        (default (0, 0) (head image_sizes)) image_sizes.

(** The rounding of lines 105-107 on one entry of the int64 tensor:
    [(x + (stride - 1)).div(stride, rounding_mode="floor") * stride].
    The sum and the product wrap around; the floor division is exact. *)
Definition round_up_int64 (x stride : Z) : Z :=
  wrap64 (wrap64 (x + (stride - 1)) / stride * stride).

(** Lines 92-107.  The sizes, a positive [square_size] and a
    [size_divisibility] above 1 are stored in, or combined with, the int64
    tensor [max_size], which raises when one of them is outside int64. *)
Definition compute_max_size (image_sizes : list (Z * Z)) (size_divisibility : Z)
    (padding_constraints : option (gmap string Z)) : result (Z * Z) :=
  if negb (forallb (fun s : Z * Z => in_int64 s.1 && in_int64 s.2) image_sizes)
  then Raise RuntimeError
  else
    let max_size := max_hw image_sizes in
    max_size ←
      match padding_constraints with
      | Some pc =>
          let square_size := default 0 (pc !! "square_size") in
          if 0 <? square_size
          then square_size ← int64_checked square_size;
               Ok (square_size, square_size)
          else Ok max_size
      | None => Ok max_size
      end;
    let size_divisibility :=
      effective_divisibility size_divisibility padding_constraints in
    if 1 <? size_divisibility then
      stride ← int64_checked size_divisibility;
      Ok (round_up_int64 max_size.1 stride, round_up_int64 max_size.2 stride)
    else Ok max_size.

(** The padded target size as a pair: what [compute_max_size] returns,
    and the invalid size (-1, -1), which both branches of the builder
    reject with a runtime error, when it raises. *)
Definition target_size (image_sizes : list (Z * Z)) (size_divisibility : Z)
    (padding_constraints : option (gmap string Z)) : Z * Z :=
  match compute_max_size image_sizes size_divisibility padding_constraints with
  | Ok max_size => max_size
  | Raise _ => (-1, -1)
  end.

(** Lines 116-129: the branch taken for one image. *)
Definition single_image_path (tensors : list (Tensor A))
    (image_sizes : list (Z * Z)) (max_size : Z * Z) (pad_value : A)
    : result ImageList :=
  match tensors, image_sizes with
  | t0 :: _, image_size :: _ =>
      let padding_size :=
        (0, max_size.2 - image_size.2, 0, max_size.1 - image_size.1) in
      batched_imgs ← unsqueeze0 <$> pad t0 padding_size pad_value;
      attention_masks ← create_attention_mask tensors max_size 16;
      Ok (mkImageList batched_imgs attention_masks image_sizes)
  | _, _ => Raise IndexError
  end.

(** The loop of lines 140-143, from index [i] on. *)
Fixpoint copy_all (batched_imgs : Tensor A) (i : nat)
    (tensors : list (Tensor A)) : result (Tensor A) :=
  match tensors with
  | [] => Ok batched_imgs
  | img :: rest =>
      batched_imgs ← copy_into batched_imgs i img;
      copy_all batched_imgs (S i) rest
  end.

(** Lines 130-145: the branch taken otherwise. *)
Definition general_path (tensors : list (Tensor A))
    (image_sizes : list (Z * Z)) (max_size : Z * Z) (pad_value : A)
    : result ImageList :=
  match tensors with
  | t0 :: _ =>
      batched_imgs ← new_full t0 (length tensors :: t_lead t0)
                       max_size.1 max_size.2 pad_value;
      let batched_imgs := move_device_like batched_imgs t0 in
      batched_imgs ← copy_all batched_imgs 0 tensors;
      attention_masks ← create_attention_mask tensors max_size 16;
      Ok (mkImageList batched_imgs attention_masks image_sizes)
  | [] => Raise IndexError
  end.

(** The assertions of lines 85-89. *)
Fixpoint check_leading (t0 : Tensor A) (tensors : list (Tensor A))
    : result unit :=
  match tensors with
  | [] => Ok ()
  | t :: rest =>
      if bool_decide (t_lead t = t_lead t0) then check_leading t0 rest
      else Raise (AssertionError [shape t])
  end.

Definition from_tensors (tensors : list (Tensor A)) (size_divisibility : Z)
    (pad_value : A) (padding_constraints : option (gmap string Z))
    : result ImageList :=
  match tensors with
  | [] => Raise (AssertionError [])
  | t0 :: _ =>
      _ ← check_leading t0 tensors;
      let image_sizes := image_sizes_of tensors in
      max_size ← compute_max_size image_sizes size_divisibility
                   padding_constraints;
      if (length tensors =? 1)%nat
      then single_image_path tensors image_sizes max_size pad_value
      else general_path tensors image_sizes max_size pad_value
  end.
End ImageList.

Arguments ImageList : clear implicits.

(** ** What the design document's words mean *)

(** [m] is the maximum of the non-empty list [l]. *)
Definition is_max_of (m : Z) (l : list Z) : Prop :=
  In m l /\ Forall (fun x => x <= m) l.

(** [r] is [m] "rounded up to the next multiple of [d] when [d > 1]",
    and [m] itself otherwise. *)
Definition rounded_up_to (d m r : Z) : Prop :=
  if 1 <? d then (d | r) /\ m <= r < m + d else r = m.

(** The [square_size] in force: 0 when there is none. *)
Definition square_size_of (padding_constraints : option (gmap string Z)) : Z :=
  match padding_constraints with
  | Some pc => default 0 (pc !! "square_size")
  | None => 0
  end.

(** The element of [t] at leading index [p], row [y], column [x]. *)
Definition t_at {A} (t : Tensor A) (p y x : nat) : option A :=
  row ← (plane ← t_planes t !! p; plane !! y); row !! x.

(** What a mask tensor holds, whatever device it lives on. *)
Definition mask_values {A} (b : ImageList A) : list nat * list (list (list Q)) :=
  (shape (padding_mask b), t_planes (padding_mask b)).

(** Two runs end alike: both raise the same exception, or both return,
    with results related by [R]. *)
Definition same_outcome {T U} (R : T -> U -> Prop)
    (r1 : result T) (r2 : result U) : Prop :=
  match r1, r2 with
  | Ok a, Ok b => R a b
  | Raise e1, Raise e2 => e1 = e2
  | _, _ => False
  end.

Definition same_shape {A B} (a : Tensor A) (b : Tensor B) : Prop :=
  t_lead a = t_lead b /\ t_h a = t_h b /\ t_w a = t_w b.

(** ** Objects in a store

    [ImageList] objects are allocated in a store of references; a method
    that builds an object allocates it at a fresh reference. *)

Definition alloc {A} (o : ImageList A) (σ : gmap nat (ImageList A))
  : nat * gmap nat (ImageList A) :=
  let l := fresh (dom σ) in (l, <[l := o]> σ).

(** [self.to(d)] on the object at reference [self]; [None] when [self]
    is not a reference of the store. *)
Definition to_method {A} (self : nat) (d : device) (σ : gmap nat (ImageList A))
  : option (nat * gmap nat (ImageList A)) :=
  il ← σ !! self; Some (alloc (to il d) σ).

(** ** Concrete inputs *)

Definition const_image (lead : list nat) (h w : nat) (v : Z) : Tensor Z :=
  mkTensor lead h w (replicate (prod_list lead) (replicate h (replicate w v))) cpu.

Definition square_constraint (n : Z) : option (gmap string Z) :=
  Some {[ "square_size" := n ]}.

Definition sample_batch : ImageList Z :=
  mkImageList (const_image [1%nat] 2 2 7)
    (mkTensor [] 1 2 [[[0%Q; 0%Q]]] cpu) [(2, 2)].

Definition two_images : list (Tensor Z) :=
  [const_image [] 40 20 7; const_image [] 16 33 7].

(** ** Proof tools *)

Lemma bind_Ok {T U} (m : result T) (f : T -> result U) (u : U) :
  m ≫= f = Ok u -> exists v, m = Ok v /\ f v = Ok u.
Proof. destruct m as [v|e]; simpl; [eauto | discriminate]. Qed.

Lemma fmap_Ok {T U} (m : result T) (f : T -> U) (u : U) :
  f <$> m = Ok u -> exists v, m = Ok v /\ u = f v.
Proof.
  destruct m as [v|e]; simpl; [|discriminate].
  intros [= <-]; eauto.
Qed.

Lemma bind_Raise {T U} (m : result T) (f : T -> result U) (e : exn) :
  m ≫= f = Raise e -> m = Raise e \/ exists v, m = Ok v /\ f v = Raise e.
Proof. destruct m as [v|e']; simpl; [eauto | intros [= <-]; eauto]. Qed.

Ltac inv_bind H :=
  let v := fresh "v" in
  let E := fresh "E" in
  apply bind_Ok in H as (v & E & H).

(** ** The target size *)

Lemma max_hw_cons s l :
  max_hw (s :: l) = (Z.max s.1 (foldr Z.max s.1 (fst <$> l)),
                     Z.max s.2 (foldr Z.max s.2 (snd <$> l))).
Proof.
  unfold max_hw; simpl.
  assert (H : forall s0 : Z * Z,
    foldr (fun s m : Z * Z => (Z.max s.1 m.1, Z.max s.2 m.2)) s0 l
    = (foldr Z.max s0.1 (fst <$> l), foldr Z.max s0.2 (snd <$> l))).
  { intros [a b]. induction l as [|x l IH]; simpl; [done|]. by rewrite IH. }
  by rewrite H.
Qed.

Lemma foldr_max_is_max (x : Z) (l : list Z) :
  is_max_of (Z.max x (foldr Z.max x l)) (x :: l).
Proof.
  assert (H : is_max_of (foldr Z.max x l) (x :: l)).
  { induction l as [|y l [IHin IHall]]; simpl.
    - split; [by left | repeat constructor; lia].
    - split.
      + destruct (Z.max_spec y (foldr Z.max x l)) as [[_ ->]|[_ ->]].
        * destruct IHin as [<-|?]; [by left | right; by right].
        * right; by left.
      + inversion_clear IHall as [|? ? Hx Hl].
        constructor; [lia|]. constructor; [lia|].
        eapply Forall_impl; [exact Hl|]. simpl; intros; lia. }
  destruct H as [Hin Hall]. inversion Hall; subst.
  by rewrite Z.max_r by lia.
Qed.

Lemma max_hw_is_max (l : list (Z * Z)) :
  l <> [] ->
  is_max_of (max_hw l).1 (fst <$> l) /\ is_max_of (max_hw l).2 (snd <$> l).
Proof.
  destruct l as [|s l]; [done|]; intros _.
  rewrite max_hw_cons; simpl. split; apply foldr_max_is_max.
Qed.

Lemma round_up_spec (d m : Z) :
  1 < d ->
  (d | (m + (d - 1)) / d * d) /\
  m <= (m + (d - 1)) / d * d < m + d.
Proof.
  intros Hd. split.
  - apply Z.divide_factor_r.
  - pose proof (Z.div_mod (m + (d - 1)) d ltac:(lia)) as Hdm.
    pose proof (Z.mod_pos_bound (m + (d - 1)) d ltac:(lia)) as Hb.
    lia.
Qed.

(** *** int64 arithmetic *)

Lemma in_int64_spec (z : Z) :
  in_int64 z = true <-> int64_min <= z <= int64_max.
Proof. unfold in_int64. rewrite andb_true_iff, !Z.leb_le. done. Qed.

Lemma int64_checked_Ok (z z' : Z) :
  int64_checked z = Ok z' -> z' = z /\ int64_min <= z <= int64_max.
Proof.
  unfold int64_checked. destruct (in_int64 z) eqn:Hz; [|discriminate].
  intros [= <-]. by apply in_int64_spec in Hz.
Qed.

Lemma int64_checked_in_range (z : Z) :
  int64_min <= z <= int64_max -> int64_checked z = Ok z.
Proof.
  intros Hz. unfold int64_checked. by rewrite (proj2 (in_int64_spec z) Hz).
Qed.

Lemma wrap64_spec (z : Z) :
  int64_min <= wrap64 z <= int64_max /\ exists k, wrap64 z = z + k * 2 ^ 64.
Proof.
  unfold wrap64, int64_min, int64_max.
  pose proof (Z.mod_pos_bound (z + 2 ^ 63) (2 ^ 64) ltac:(lia)) as Hb.
  pose proof (Z.div_mod (z + 2 ^ 63) (2 ^ 64) ltac:(lia)) as Hdm.
  split; [lia|]. exists (- ((z + 2 ^ 63) / 2 ^ 64)). lia.
Qed.

(** Without overflow the int64 rounding is the rounding of integers. *)
Lemma round_up_int64_exact (x d : Z) :
  0 <= x -> 1 < d -> x + d <= 2 ^ 63 ->
  round_up_int64 x d = (x + (d - 1)) / d * d.
Proof.
  intros Hx Hd Hsum. unfold round_up_int64.
  destruct (wrap64_spec (x + (d - 1))) as [Hr1 [k1 Hk1]].
  unfold int64_min, int64_max in *.
  assert (Hw1 : wrap64 (x + (d - 1)) = x + (d - 1)) by lia.
  rewrite Hw1.
  pose proof (round_up_spec d x Hd) as [_ Hround].
  destruct (wrap64_spec ((x + (d - 1)) / d * d)) as [Hr2 [k2 Hk2]].
  unfold int64_min, int64_max in *. lia.
Qed.

(** With overflow the rounded size is negative or still at least [x]. *)
Lemma round_up_int64_ge (x d : Z) :
  0 <= x <= int64_max -> 1 < d <= int64_max ->
  0 <= round_up_int64 x d -> x <= round_up_int64 x d.
Proof.
  unfold round_up_int64, int64_max. intros Hx Hd.
  destruct (wrap64_spec (x + (d - 1))) as [Hr1 [k1 Hk1]].
  set (S := wrap64 (x + (d - 1))) in *.
  pose proof (Z.div_mod S d ltac:(lia)) as Hdm.
  pose proof (Z.mod_pos_bound S d ltac:(lia)) as Hb.
  destruct (wrap64_spec (S / d * d)) as [Hr2 [k2 Hk2]].
  unfold int64_min, int64_max in *. lia.
Qed.

(** A rounded size that is not negative and leaves room for one more
    stride did not wrap: it is a multiple of the stride. *)
Lemma round_up_int64_divide (x d : Z) :
  0 <= x <= int64_max -> 1 < d <= int64_max ->
  0 <= round_up_int64 x d -> round_up_int64 x d + d <= 2 ^ 63 ->
  (d | round_up_int64 x d).
Proof.
  unfold round_up_int64, int64_max. intros Hx Hd Hr Hroom.
  destruct (wrap64_spec (x + (d - 1))) as [Hr1 [k1 Hk1]].
  set (S := wrap64 (x + (d - 1))) in *.
  pose proof (Z.div_mod S d ltac:(lia)) as Hdm.
  pose proof (Z.mod_pos_bound S d ltac:(lia)) as Hb.
  destruct (wrap64_spec (S / d * d)) as [Hr2 [k2 Hk2]].
  unfold int64_min, int64_max in *.
  assert (Hk : k2 = 0) by lia.
  exists (S / d). lia.
Qed.

(** *** The computation of lines 92-107 *)

Lemma forallb_in_int64 (sizes : list (Z * Z)) :
  forallb (fun s : Z * Z => in_int64 s.1 && in_int64 s.2) sizes = true <->
  Forall (fun s : Z * Z => (int64_min <= s.1 <= int64_max) /\
                           (int64_min <= s.2 <= int64_max)) sizes.
Proof.
  induction sizes as [|s l IH]; simpl.
  - split; [constructor | done].
  - rewrite !andb_true_iff, Forall_cons, IH, !in_int64_spec. tauto.
Qed.

(** The size before the divisibility rounding. *)
Lemma compute_max_size_Ok sizes sd pc ms :
  compute_max_size sizes sd pc = Ok ms ->
  Forall (fun s : Z * Z => (int64_min <= s.1 <= int64_max) /\
                           (int64_min <= s.2 <= int64_max)) sizes /\
  let sq := square_size_of pc in
  let d := effective_divisibility sd pc in
  let pre := if 0 <? sq then (sq, sq) else max_hw sizes in
  (0 < sq -> sq <= int64_max) /\
  if 1 <? d
  then d <= int64_max /\
       ms = (round_up_int64 pre.1 d, round_up_int64 pre.2 d)
  else ms = pre.
Proof.
  unfold compute_max_size.
  destruct (forallb _ sizes) eqn:Hsizes; cbn [negb]; [|discriminate].
  apply forallb_in_int64 in Hsizes. intros H. split; [done|]. cbn zeta.
  inv_bind H. rename v into pre.
  assert (Hpre : pre = (if 0 <? square_size_of pc
                        then (square_size_of pc, square_size_of pc)
                        else max_hw sizes) /\
                 (0 < square_size_of pc -> square_size_of pc <= int64_max)).
  { destruct pc as [c|]; cbn [square_size_of] in *.
    - destruct (Z.ltb_spec 0 (default 0 (c !! "square_size"))).
      + inv_bind E. injection E as <-.
        apply int64_checked_Ok in E0 as [-> ?]. split; [done|lia].
      + injection E as <-. split; [done|lia].
    - injection E as <-. split; [done|lia]. }
  destruct Hpre as [-> Hsq]. split; [done|].
  destruct (1 <? effective_divisibility sd pc).
  - inv_bind H. injection H as <-.
    apply int64_checked_Ok in E0 as [-> ?]. split; [lia|done].
  - by injection H as <-.
Qed.

Lemma int64_checked_Raise (z : Z) e :
  int64_checked z = Raise e -> e = RuntimeError.
Proof.
  unfold int64_checked. destruct (in_int64 z); [done|]. by intros [= <-].
Qed.

Lemma compute_max_size_Raise sizes sd pc e :
  compute_max_size sizes sd pc = Raise e -> e = RuntimeError.
Proof.
  unfold compute_max_size. intros H.
  destruct (negb _); [by injection H as <-|].
  apply bind_Raise in H as [H|(pre & _ & H)].
  - destruct pc as [c|]; [|discriminate]. cbn zeta in H.
    destruct (0 <? _); [|discriminate].
    apply bind_Raise in H as [H|(? & _ & H)]; [|discriminate].
    by eapply int64_checked_Raise.
  - destruct (1 <? _); [|discriminate].
    apply bind_Raise in H as [H|(? & _ & H)]; [|discriminate].
    by eapply int64_checked_Raise.
Qed.

Lemma target_size_Ok sizes sd pc ms :
  compute_max_size sizes sd pc = Ok ms -> target_size sizes sd pc = ms.
Proof. unfold target_size. by intros ->. Qed.

Lemma target_size_Raise sizes sd pc e :
  compute_max_size sizes sd pc = Raise e -> target_size sizes sd pc = (-1, -1).
Proof. unfold target_size. by intros ->. Qed.

Lemma target_size_nonneg sizes sd pc :
  0 <= (target_size sizes sd pc).1 ->
  compute_max_size sizes sd pc = Ok (target_size sizes sd pc).
Proof.
  unfold target_size. destruct (compute_max_size sizes sd pc); [done|].
  simpl. lia.
Qed.

(** What [compute_max_size] needs to return. *)
Lemma compute_max_size_succeeds sizes sd pc :
  Forall (fun s : Z * Z => (int64_min <= s.1 <= int64_max) /\
                           (int64_min <= s.2 <= int64_max)) sizes ->
  square_size_of pc <= int64_max ->
  effective_divisibility sd pc <= int64_max ->
  is_Ok (compute_max_size sizes sd pc).
Proof.
  intros Hsizes Hsq Hd. unfold compute_max_size.
  rewrite (proj2 (forallb_in_int64 sizes) Hsizes). cbn [negb].
  assert (Hround : forall pre : Z * Z,
    is_Ok (if 1 <? effective_divisibility sd pc
           then stride ← int64_checked (effective_divisibility sd pc);
                Ok (round_up_int64 pre.1 stride, round_up_int64 pre.2 stride)
           else Ok pre)).
  { intros pre. destruct (Z.ltb_spec 1 (effective_divisibility sd pc));
      [|by eexists].
    rewrite int64_checked_in_range; [by eexists|].
    unfold int64_min, int64_max in *. lia. }
  destruct pc as [c|]; [|cbn [mbind result_bind]; apply Hround].
  unfold square_size_of in Hsq. cbn zeta.
  destruct (Z.ltb_spec 0 (default 0 (c !! "square_size"))) as [Hpos|Hpos];
    [|cbn [mbind result_bind]; apply Hround].
  rewrite (int64_checked_in_range (default 0 (c !! "square_size")));
    [cbn [mbind result_bind]; apply Hround|].
  unfold int64_min, int64_max in *. lia.
Qed.

(** ** Shapes through the builder *)

Section BuilderShapes.
Context {A : Type}.
Implicit Types (t img dst : Tensor A) (tensors : list (Tensor A)).

Lemma pad_Ok t pl pr pt pb (v : A) t' :
  pad t (pl, pr, pt, pb) v = Ok t' ->
  t_lead t' = t_lead t /\
  Z.of_nat (t_h t') = Z.of_nat (t_h t) + pt + pb /\
  Z.of_nat (t_w t') = Z.of_nat (t_w t) + pl + pr /\
  t_device t' = t_device t.
Proof.
  unfold pad.
  destruct (Z.ltb_spec (Z.of_nat (t_w t) + pl + pr) 0); simpl; [discriminate|].
  destruct (Z.ltb_spec (Z.of_nat (t_h t) + pt + pb) 0); simpl; [discriminate|].
  intros [= <-]; simpl. repeat split; lia.
Qed.

Lemma copy_into_Ok dst i img dst' :
  copy_into dst i img = Ok dst' ->
  t_lead dst' = t_lead dst /\ t_h dst' = t_h dst /\ t_w dst' = t_w dst /\
  t_device dst' = t_device dst.
Proof.
  unfold copy_into. destruct (t_lead dst) as [|n lead]; [discriminate|].
  destruct (negb _); [discriminate|].
  destruct (_ && _); [|discriminate].
  by intros [= <-].
Qed.

Lemma copy_all_Ok tensors : forall dst i dst',
  copy_all dst i tensors = Ok dst' ->
  t_lead dst' = t_lead dst /\ t_h dst' = t_h dst /\ t_w dst' = t_w dst /\
  t_device dst' = t_device dst.
Proof.
  induction tensors as [|img rest IH]; simpl; intros dst i dst' H.
  - by injection H as <-.
  - inv_bind H. apply copy_into_Ok in E as (<- & <- & <- & <-).
    by apply IH in H.
Qed.

Lemma new_full_Ok like lead h w (v : A) t :
  new_full like lead h w v = Ok t ->
  t_lead t = lead /\ Z.of_nat (t_h t) = h /\ Z.of_nat (t_w t) = w /\
  t_device t = t_device like.
Proof.
  unfold new_full.
  destruct (Z.ltb_spec h 0); simpl; [discriminate|].
  destruct (Z.ltb_spec w 0); simpl; [discriminate|].
  intros [= <-]; simpl. repeat split; lia.
Qed.

Lemma image_sizes_of_length tensors :
  length (image_sizes_of tensors) = length tensors.
Proof. unfold image_sizes_of. by rewrite length_fmap. Qed.

Lemma single_image_path_Ok t0 rest s0 sizes max_size (pv : A) b :
  single_image_path (t0 :: rest) (s0 :: sizes) max_size pv = Ok b ->
  exists padded m,
    pad t0 (0, max_size.2 - s0.2, 0, max_size.1 - s0.1) pv = Ok padded /\
    create_attention_mask (t0 :: rest) max_size 16 = Ok m /\
    b = mkImageList (unsqueeze0 padded) m (s0 :: sizes).
Proof.
  unfold single_image_path. intros H.
  inv_bind H. apply fmap_Ok in E as (padded & E & ->).
  inv_bind H. injection H as <-. eauto.
Qed.

Lemma general_path_Ok t0 rest sizes max_size (pv : A) b :
  general_path (t0 :: rest) sizes max_size pv = Ok b ->
  exists full data m,
    new_full t0 (length (t0 :: rest) :: t_lead t0) max_size.1 max_size.2 pv
      = Ok full /\
    copy_all (move_device_like full t0) 0 (t0 :: rest) = Ok data /\
    create_attention_mask (t0 :: rest) max_size 16 = Ok m /\
    b = mkImageList data m sizes.
Proof.
  unfold general_path. intros H.
  inv_bind H. inv_bind H. inv_bind H. injection H as <-. eauto 10.
Qed.

Lemma from_tensors_cons t0 rest sd (pv : A) pc :
  from_tensors (t0 :: rest) sd pv pc
  = _ ← check_leading t0 (t0 :: rest);
    max_size ← compute_max_size (image_sizes_of (t0 :: rest)) sd pc;
    if (length (t0 :: rest) =? 1)%nat
    then single_image_path (t0 :: rest) (image_sizes_of (t0 :: rest)) max_size pv
    else general_path (t0 :: rest) (image_sizes_of (t0 :: rest)) max_size pv.
Proof. done. Qed.

(** A batch that was built: where it came from and what shape it has. *)
Lemma from_tensors_Ok tensors sd (pv : A) pc b :
  from_tensors tensors sd pv pc = Ok b ->
  exists t0 rest,
    tensors = t0 :: rest /\
    check_leading t0 tensors = Ok () /\
    let max_size := target_size (image_sizes_of tensors) sd pc in
    t_lead (tensor b) = length tensors :: t_lead t0 /\
    Z.of_nat (t_h (tensor b)) = max_size.1 /\
    Z.of_nat (t_w (tensor b)) = max_size.2 /\
    image_sizes b = image_sizes_of tensors /\
    create_attention_mask tensors max_size 16 = Ok (padding_mask b).
Proof.
  destruct tensors as [|t0 rest]; [discriminate|].
  rewrite from_tensors_cons. intros H. inv_bind H. destruct v.
  inv_bind H. rename v into ms, E0 into Hms.
  exists t0, rest. split; [done|]. split; [done|].
  rewrite (target_size_Ok _ _ _ _ Hms). cbn zeta.
  destruct (Nat.eqb_spec (length (t0 :: rest)) 1) as [Hlen|Hlen].
  - change (image_sizes_of (t0 :: rest))
      with ((Z.of_nat (t_h t0), Z.of_nat (t_w t0)) :: image_sizes_of rest) in H.
    apply single_image_path_Ok in H as (padded & m & Hp & Hm & ->).
    apply pad_Ok in Hp as (Hl & Hh & Hw & _). cbn [fst snd] in Hh, Hw.
    cbn [tensor padding_mask image_sizes unsqueeze0 t_lead t_h t_w].
    destruct rest; [|discriminate]. rewrite Hl.
    repeat split; [lia|lia|done].
  - apply general_path_Ok in H as (full & data & m & Hf & Hc & Hm & ->).
    apply copy_all_Ok in Hc as (Hl & Hh & Hw & _).
    apply new_full_Ok in Hf as (Hl' & Hh' & Hw' & _).
    cbn [tensor padding_mask image_sizes move_device_like tensor_to
         t_lead t_h t_w] in *.
    rewrite Hl, Hh, Hw, Hl'. done.
Qed.

(** A batch that was built is what its branch returned on the padded
    size. *)
Lemma from_tensors_Ok_path t0 rest sd (pv : A) pc b :
  from_tensors (t0 :: rest) sd pv pc = Ok b ->
  let sizes := image_sizes_of (t0 :: rest) in
  let max_size := target_size sizes sd pc in
  (if (length (t0 :: rest) =? 1)%nat
   then single_image_path (t0 :: rest) sizes max_size pv
   else general_path (t0 :: rest) sizes max_size pv) = Ok b.
Proof.
  rewrite from_tensors_cons. intros H. inv_bind H. inv_bind H.
  cbn zeta. by rewrite (target_size_Ok _ _ _ _ E0).
Qed.

(** A batch is built on the size that [compute_max_size] returned. *)
Lemma from_tensors_Ok_size tensors sd (pv : A) pc b :
  from_tensors tensors sd pv pc = Ok b ->
  compute_max_size (image_sizes_of tensors) sd pc
  = Ok (target_size (image_sizes_of tensors) sd pc).
Proof.
  intros Hb. apply from_tensors_Ok in Hb as (t0 & rest & -> & _ & _ & Hh & _).
  apply target_size_nonneg. cbn zeta in Hh. lia.
Qed.
End BuilderShapes.

(** ** Sums of non-negative rationals *)

Lemma Qgtb_true (x y : Q) : Qgtb x y = true <-> (y < x)%Q.
Proof.
  unfold Qgtb. rewrite (Qgt_alt x y).
  destruct (x ?= y)%Q; split; congruence.
Qed.

Lemma sumQ_nonneg (l : list Q) :
  Forall (fun x => (0 <= x)%Q) l -> (0 <= sumQ l)%Q.
Proof.
  induction 1 as [|x l Hx _ IH]; simpl; [apply Qle_refl|].
  change 0%Q with (0 + 0)%Q at 1. by apply Qplus_le_compat.
Qed.

Lemma sumQ_pos (l : list Q) :
  Forall (fun x => (0 <= x)%Q) l ->
  (0 < sumQ l)%Q <-> Exists (fun x => (0 < x)%Q) l.
Proof.
  induction 1 as [|x l Hx Hl IH]; simpl.
  - split; [intros H; by apply Qlt_irrefl in H | by inversion 1].
  - pose proof (sumQ_nonneg l Hl) as Hs. split.
    + intros Hpos. destruct (Qlt_le_dec 0 x) as [Hx'|Hx'].
      * by left.
      * right. apply IH.
        assert (Hx0 : (x == 0)%Q) by (by apply Qle_antisym).
        rewrite Hx0, Qplus_0_l in Hpos. done.
    + inversion_clear 1 as [? ? Hx'|? ? Hl'].
      * apply Qlt_le_trans with (x + 0)%Q.
        -- by rewrite Qplus_0_r.
        -- apply Qplus_le_compat; [apply Qle_refl | done].
      * apply IH in Hl'. apply Qlt_le_trans with (0 + sumQ l)%Q.
        -- by rewrite Qplus_0_l.
        -- apply Qplus_le_compat; [done | apply Qle_refl].
Qed.

Lemma elem_of_take_drop {B} (l : list B) (n k : nat) (x : B) :
  x ∈ take k (drop n l) <-> exists i, (i < k)%nat /\ l !! (n + i)%nat = Some x.
Proof.
  rewrite list_elem_of_lookup. split.
  - intros [i Hi]. apply lookup_take_Some in Hi as [Hi Hk].
    rewrite lookup_drop in Hi. eauto.
  - intros (i & Hk & Hi). exists i.
    rewrite lookup_take_lt by done. by rewrite lookup_drop.
Qed.

(** A block mean is positive exactly when the block holds a positive entry. *)
Lemma block_mean_pos (k : nat) (p : list (list Q)) (r c : nat) :
  (0 < k)%nat ->
  Forall (Forall (fun v => (0 <= v)%Q)) p ->
  (0 < block_mean k p r c)%Q <->
  exists i j row v,
    (i < k)%nat /\ (j < k)%nat /\
    p !! (r * k + i)%nat = Some row /\ row !! (c * k + j)%nat = Some v /\
    (0 < v)%Q.
Proof.
  intros Hk Hp. unfold block_mean.
  assert (Hd : (0 < inject_Z (Z.of_nat (k * k)))%Q).
  { change 0%Q with (inject_Z 0). rewrite <- Zlt_Qlt. nia. }
  assert (Hrows : Forall (Forall (fun v => (0 <= v)%Q)) (take k (drop (r * k) p))).
  { apply Forall_take, Forall_drop, Hp. }
  set (rows := take k (drop (r * k) p)) in *.
  assert (Hsums : Forall (fun x => (0 <= x)%Q)
            ((fun row => sumQ (take k (drop (c * k) row))) <$> rows)).
  { apply Forall_fmap. eapply Forall_impl; [exact Hrows|].
    intros row Hrow; simpl. apply sumQ_nonneg, Forall_take, Forall_drop, Hrow. }
  split.
  - intros Hpos.
    assert (Hs : (0 < sumQ ((fun row => sumQ (take k (drop (c * k) row))) <$> rows))%Q).
    { destruct (Qlt_le_dec 0 (sumQ ((fun row => sumQ (take k (drop (c * k) row))) <$> rows)))
        as [|Hle]; [done|].
      exfalso. apply (Qlt_not_le _ _ Hpos).
      apply Qle_shift_div_r; [done|]. by rewrite Qmult_0_l. }
    apply sumQ_pos in Hs; [|done].
    apply Exists_exists in Hs as (s & Hin & Hs).
    apply list_elem_of_fmap in Hin as (row & -> & Hrow).
    assert (Hrow' : Forall (fun v => (0 <= v)%Q) row).
    { rewrite Forall_forall in Hrows. by apply Hrows. }
    apply sumQ_pos in Hs; [|by apply Forall_take, Forall_drop].
    apply Exists_exists in Hs as (v & Hv & Hvpos).
    apply elem_of_take_drop in Hrow as (i & Hi & Hrow).
    apply elem_of_take_drop in Hv as (j & Hj & Hv).
    exists i, j, row, v. done.
  - intros (i & j & row & v & Hi & Hj & Hrow & Hv & Hvpos).
    apply Qlt_shift_div_l; [done|]. rewrite Qmult_0_l.
    apply sumQ_pos; [done|]. apply Exists_exists.
    exists (sumQ (take k (drop (c * k) row))). split.
    + apply list_elem_of_fmap. exists row. split; [done|].
      apply elem_of_take_drop. eauto.
    + assert (Hrow' : Forall (fun v => (0 <= v)%Q) row).
      { rewrite Forall_forall in Hp. eapply Hp, list_elem_of_lookup_2, Hrow. }
      apply sumQ_pos; [by apply Forall_take, Forall_drop|].
      apply Exists_exists. exists v. split; [|done].
      apply elem_of_take_drop. eauto.
Qed.

(** ** The padded validity map *)

Lemma pad_axis_0 {B} (after : Z) (fill : B) (l : list B) :
  pad_axis 0 after fill l
  = resize (Z.to_nat (Z.of_nat (length l) + after)) fill l.
Proof. done. Qed.

(** [F.pad(torch.ones((h, w)), (0, W - w, 0, H - h), value=0)], the one
    plane of it: 1 on the rows below [h] and columns below [w], 0 elsewhere. *)
Lemma validity_map_planes (h w : nat) (H W : Z) (d : device) padded :
  pad (ones h w d) (0, W - Z.of_nat w, 0, H - Z.of_nat h) 0%Q = Ok padded ->
  0 <= H /\ 0 <= W /\
  t_h padded = Z.to_nat H /\ t_w padded = Z.to_nat W /\
  t_planes padded =
    [resize (Z.to_nat H) (replicate (Z.to_nat W) 0%Q)
       (resize (Z.to_nat W) 0%Q <$> replicate h (replicate w 1%Q))].
Proof.
  unfold pad, ones. cbn [t_h t_w t_lead t_planes t_device].
  replace (Z.of_nat w + 0 + (W - Z.of_nat w)) with W by lia.
  replace (Z.of_nat h + 0 + (H - Z.of_nat h)) with H by lia.
  destruct (Z.ltb_spec W 0); simpl; [discriminate|].
  destruct (Z.ltb_spec H 0); simpl; [discriminate|].
  intros [= <-]. cbn [t_h t_w t_planes]. repeat split; try lia.
  rewrite !pad_axis_0. rewrite length_fmap, length_replicate.
  f_equal. replace (Z.of_nat h + (H - Z.of_nat h)) with H by lia.
  f_equal. apply list_fmap_ext. intros i row Hrow.
  apply lookup_replicate in Hrow as [-> _].
  rewrite pad_axis_0, length_replicate. f_equal. f_equal. lia.
Qed.

Lemma validity_map_lookup (h w H W y x : nat) :
  (y < H)%nat -> (x < W)%nat ->
  exists row,
    resize H (replicate W 0%Q) (resize W 0%Q <$> replicate h (replicate w 1%Q))
      !! y = Some row /\
    row !! x = Some (if (y <? h)%nat && (x <? w)%nat then 1%Q else 0%Q).
Proof.
  intros Hy Hx. destruct (Nat.ltb_spec y h) as [Hyh|Hyh]; simpl.
  - exists (resize W 0%Q (replicate w 1%Q)). split.
    + rewrite lookup_resize by (rewrite ?length_fmap, ?length_replicate; lia).
      rewrite list_lookup_fmap, lookup_replicate_2 by lia. done.
    + destruct (Nat.ltb_spec x w) as [Hxw|Hxw].
      * rewrite lookup_resize by (rewrite ?length_replicate; lia).
        by rewrite lookup_replicate_2 by lia.
      * rewrite lookup_resize_new by (rewrite ?length_replicate; lia). done.
  - exists (replicate W 0%Q). split.
    + rewrite lookup_resize_new
        by (rewrite ?length_fmap, ?length_replicate; lia). done.
    + by rewrite lookup_replicate_2 by lia.
Qed.

Lemma validity_map_nonneg (h w H W : nat) :
  Forall (Forall (fun v => (0 <= v)%Q))
    (resize H (replicate W 0%Q) (resize W 0%Q <$> replicate h (replicate w 1%Q))).
Proof.
  rewrite resize_spec. apply Forall_app. split.
  - apply Forall_take, Forall_fmap, Forall_replicate. simpl.
    rewrite resize_spec. apply Forall_app. split.
    + apply Forall_take, Forall_replicate. discriminate.
    + apply Forall_replicate. discriminate.
  - apply Forall_replicate, Forall_replicate. discriminate.
Qed.

(** A block of the grid holds a 1 exactly when it starts inside the image. *)
Lemma validity_block_mean_pos (h w H W k r c : nat) :
  (0 < k)%nat -> (r < H / k)%nat -> (c < W / k)%nat ->
  (0 < block_mean k
         (resize H (replicate W 0%Q)
            (resize W 0%Q <$> replicate h (replicate w 1%Q))) r c)%Q
  <-> (r * k < h)%nat /\ (c * k < w)%nat.
Proof.
  intros Hk Hr Hc.
  assert (HrH : (r * k + k <= H)%nat).
  { pose proof (Nat.Div0.mul_div_le H k). nia. }
  assert (HcW : (c * k + k <= W)%nat).
  { pose proof (Nat.Div0.mul_div_le W k). nia. }
  rewrite block_mean_pos by (done || apply validity_map_nonneg). split.
  - intros (i & j & row & v & Hi & Hj & Hrow & Hv & Hpos).
    destruct (validity_map_lookup h w H W (r * k + i) (c * k + j))
      as (row' & Hrow' & Hv'); [lia|lia|].
    rewrite Hrow in Hrow'. injection Hrow' as <-.
    rewrite Hv in Hv'. injection Hv' as ->.
    destruct (Nat.ltb_spec (r * k + i) h); simpl in Hpos;
      [|by apply Qlt_irrefl in Hpos].
    destruct (Nat.ltb_spec (c * k + j) w); simpl in Hpos;
      [|by apply Qlt_irrefl in Hpos].
    lia.
  - intros [Hrh Hcw].
    destruct (validity_map_lookup h w H W (r * k + 0) (c * k + 0))
      as (row & Hrow & Hv); [lia|lia|].
    exists 0%nat, 0%nat, row, 1%Q.
    split; [done|]. split; [done|]. split; [done|]. split; [|done].
    rewrite Hv.
    destruct (Nat.ltb_spec (r * k + 0) h); [|lia].
    destruct (Nat.ltb_spec (c * k + 0) w); [|lia]. done.
Qed.

(** ** Row-major flattening of a grid *)

Lemma lookup_flat_grid {B} (f : nat -> nat -> B) (oh ow r c : nat) :
  (r < oh)%nat -> (c < ow)%nat ->
  concat ((fun r => f r <$> seq 0 ow) <$> seq 0 oh) !! (r * ow + c)%nat
  = Some (f r c).
Proof.
  intros Hr Hc.
  enough (Hgen : forall n s r, (r < n)%nat ->
    concat ((fun r => f r <$> seq 0 ow) <$> seq s n) !! (r * ow + c)%nat
    = Some (f (s + r)%nat c)) by (by rewrite Hgen).
  clear r Hr. induction n as [|n IH]; intros s r Hr; [lia|]. simpl.
  destruct r as [|r].
  - rewrite lookup_app_l by (rewrite length_fmap, length_seq; lia).
    rewrite list_lookup_fmap, lookup_seq_lt by lia.
    simpl. by rewrite Nat.add_0_r.
  - rewrite lookup_app_r by (rewrite length_fmap, length_seq; lia).
    rewrite length_fmap, length_seq.
    replace (S r * ow + c - ow)%nat with (r * ow + c)%nat by lia.
    rewrite IH by lia. f_equal. f_equal. lia.
Qed.

Lemma length_flat_grid {B} (f : nat -> nat -> B) (oh ow : nat) :
  length (concat ((fun r => f r <$> seq 0 ow) <$> seq 0 oh)) = (oh * ow)%nat.
Proof.
  generalize 0%nat at 2 as s.
  induction oh as [|n IH]; intros s; simpl; [done|].
  by rewrite length_app, length_fmap, length_seq, IH.
Qed.

(** ** The mask of one image *)

Lemma pool_size (size k : Z) : 0 < k -> (size - k) / k + 1 = size / k.
Proof.
  intros Hk. replace (size - k) with (size + (-1) * k) by lia.
  rewrite Z.div_add by lia. lia.
Qed.

Lemma fmap_concat {B C} (f : B -> C) (l : list (list B)) :
  f <$> concat l = concat ((fun x : list B => f <$> x) <$> l).
Proof.
  induction l as [|x l IH]; simpl; [done|]. by rewrite fmap_app, IH.
Qed.

Lemma mask_value_valid : ((1 - 1) * large_neg_val)%Q = 0%Q.
Proof. reflexivity. Qed.

Lemma mask_value_invalid : ((1 - 0) * large_neg_val)%Q = large_neg_val.
Proof. reflexivity. Qed.

Lemma attention_mask_1d_Ok {A} (img : Tensor A) (H W ps : Z) (v : Vector) :
  attention_mask_1d img (H, W) ps = Ok v ->
  0 < ps /\ ps <= H /\ ps <= W /\
  v = mkVector
        (0%Q ::
         ((fun v : Q => if Qgtb v 0 then 0%Q else large_neg_val) <$>
          concat ((fun r =>
                     block_mean (Z.to_nat ps)
                       (resize (Z.to_nat H) (replicate (Z.to_nat W) 0%Q)
                          (resize (Z.to_nat W) 0%Q
                             <$> replicate (t_h img) (replicate (t_w img) 1%Q)))
                       r <$> seq 0 (Z.to_nat (W / ps)))
                  <$> seq 0 (Z.to_nat (H / ps)))))
        (t_device img).
Proof.
  unfold attention_mask_1d. cbn [fst snd]. intros Hrow.
  inv_bind Hrow. rename v0 into padded.
  pose proof (pad_Ok _ _ _ _ _ _ _ E) as (Hlead & _ & _ & Hdev).
  cbn [ones t_device] in Hdev.
  apply validity_map_planes in E as (HH & HW & Hh & Hw & Hplanes).
  inv_bind Hrow. rename v0 into pooled.
  unfold avg_pool2d in E.
  cbn [unsqueeze0 t_lead t_h t_w t_planes t_device] in E.
  rewrite Hlead in E. cbn [length] in E.
  rewrite bool_decide_eq_true_2 in E by (by right). cbn [negb] in E.
  destruct (Z.leb_spec ps 0) as [|Hps]; [discriminate|].
  rewrite !pool_size in E by done. rewrite Hh, Hw, !Z2Nat.id in E by done.
  destruct (Z.ltb_spec (H / ps) 1) as [|Hoh]; [discriminate|].
  destruct (Z.ltb_spec (W / ps) 1) as [|How]; [discriminate|].
  cbn [orb] in E. injection E as <-.
  assert (ps <= H).
  { destruct (Z.le_gt_cases ps H); [done|]. rewrite Z.div_small in Hoh; lia. }
  assert (ps <= W).
  { destruct (Z.le_gt_cases ps W); [done|]. rewrite Z.div_small in How; lia. }
  split; [done|]. split; [done|]. split; [done|].
  unfold cat, view_flat, tensor_map in Hrow.
  cbn [v_device v_elems t_device t_planes] in Hrow.
  rewrite Hdev, bool_decide_eq_true_2 in Hrow by done.
  cbn [mbind result_bind] in Hrow. injection Hrow as <-.
  unfold vector_map. cbn [v_elems v_device app fmap list_fmap].
  rewrite Hplanes. cbn [fmap list_fmap concat]. rewrite app_nil_r.
  change (list_fmap ?X ?Y ?f ?l) with (f <$> l).
  rewrite mask_value_valid. f_equal. f_equal.
  rewrite <- fmap_concat, <- !list_fmap_compose. apply list_fmap_ext.
  intros i v _. simpl. destruct (Qgtb v 0); reflexivity.
Qed.

(** The elements of a row, whatever its device. *)
Lemma mask_row_Ok {A} (img : Tensor A) (H W ps : Z) (row : list Q) :
  (exists v, attention_mask_1d img (H, W) ps = Ok v /\ v_elems v = row) ->
  0 < ps /\ ps <= H /\ ps <= W /\
  row = 0%Q ::
    ((fun v : Q => if Qgtb v 0 then 0%Q else large_neg_val) <$>
     concat ((fun r =>
                block_mean (Z.to_nat ps)
                  (resize (Z.to_nat H) (replicate (Z.to_nat W) 0%Q)
                     (resize (Z.to_nat W) 0%Q
                        <$> replicate (t_h img) (replicate (t_w img) 1%Q)))
                  r <$> seq 0 (Z.to_nat (W / ps)))
             <$> seq 0 (Z.to_nat (H / ps)))).
Proof.
  intros (v & Hv & <-).
  by apply attention_mask_1d_Ok in Hv as (? & ? & ? & ->).
Qed.

Lemma mapM_Ok {T U} (f : T -> result U) (l : list T) (k : list U) :
  mapM f l = Ok k -> Forall2 (fun x y => f x = Ok y) l k.
Proof.
  revert k. induction l as [|x l IH]; simpl; intros k H.
  - injection H as <-. constructor.
  - inv_bind H. inv_bind H. injection H as <-. constructor; auto.
Qed.

Lemma stack_rows_Ok (vs : list Vector) (m : Tensor Q) :
  stack_rows vs = Ok m ->
  vs <> [] /\
  t_lead m = [] /\ t_h m = length vs /\ t_planes m = [v_elems <$> vs] /\
  Forall (fun v => length (v_elems v) = t_w m /\ v_device v = t_device m) vs.
Proof.
  unfold stack_rows. destruct vs as [|r0 vs']; [discriminate|].
  destruct (forallb _ _) eqn:Hall; [|discriminate].
  intros [= <-]. cbn [t_lead t_h t_w t_planes t_device].
  split; [done|]. split; [done|]. split; [done|]. split; [done|].
  pose proof (proj1 (forallb_forall _ _) Hall) as Hall'.
  apply Forall_forall. intros v Hv.
  apply list_elem_of_In, Hall', andb_true_iff in Hv as [Hlen Hdev].
  apply Nat.eqb_eq in Hlen. by apply bool_decide_eq_true in Hdev.
Qed.

Lemma create_attention_mask_Ok {A} (tensors : list (Tensor A)) max_size ps m :
  create_attention_mask tensors max_size ps = Ok m ->
  exists rows,
    Forall2 (fun img row =>
               exists v, attention_mask_1d img max_size ps = Ok v /\
                         v_elems v = row)
      tensors rows /\
    t_lead m = [] /\ t_h m = length tensors /\ t_planes m = [rows] /\
    Forall (fun row => length row = t_w m) rows.
Proof.
  unfold create_attention_mask. intros H. inv_bind H. rename v into vs.
  apply mapM_Ok in E.
  apply stack_rows_Ok in H as (_ & Hlead & Hh & Hplanes & Hall).
  exists (v_elems <$> vs). split.
  { apply Forall2_fmap_r. eapply Forall2_impl; [exact E|].
    intros img v Hv. by exists v. }
  split; [done|]. split; [by rewrite (Forall2_length _ _ _ E)|].
  split; [done|].
  apply Forall_fmap. eapply Forall_impl; [exact Hall|]. by intros v [? _].
Qed.

(** The images of a mask that was returned are all on the mask's device. *)
Lemma create_attention_mask_Ok_device {A} (tensors : list (Tensor A))
    max_size ps m :
  create_attention_mask tensors max_size ps = Ok m ->
  Forall (fun img => t_device img = t_device m) tensors.
Proof.
  unfold create_attention_mask. intros H. inv_bind H. rename v into vs.
  apply mapM_Ok in E.
  apply stack_rows_Ok in H as (_ & _ & _ & _ & Hall).
  destruct max_size as [H W].
  apply Forall_forall. intros img Himg.
  apply list_elem_of_lookup in Himg as [i Himg].
  destruct (Forall2_lookup_l _ _ _ _ _ E Himg) as (v & Hv & H1d).
  rewrite Forall_forall in Hall.
  destruct (Hall v) as [_ <-]; [by eapply list_elem_of_lookup_2|].
  by apply attention_mask_1d_Ok in H1d as (_ & _ & _ & ->).
Qed.

Lemma validity_map_Ok (h w : nat) (H W : Z) (d : device) :
  0 <= H -> 0 <= W ->
  exists padded,
    pad (ones h w d) (0, W - Z.of_nat w, 0, H - Z.of_nat h) 0%Q = Ok padded.
Proof.
  intros HH HW. unfold pad, ones. cbn [t_h t_w].
  destruct (Z.ltb_spec (Z.of_nat w + 0 + (W - Z.of_nat w)) 0); [lia|].
  destruct (Z.ltb_spec (Z.of_nat h + 0 + (H - Z.of_nat h)) 0); [lia|].
  simpl. eauto.
Qed.

(** ** The attention mask *)

(** C4.  For every image and every patch block of the padded validity
    map, the mask holds 0 at the block's position (one past the leading
    token, blocks in row-major order) when the block's mean validity is
    positive, and exactly -1e6 otherwise; the mean is positive exactly
    when the block overlaps the image's original region. *)
Theorem mask_entry_by_block_mean {A} (tensors : list (Tensor A))
    (H W patch_size : Z) (m : Tensor Q) (i : nat) (img : Tensor A) (r c : nat) :
  create_attention_mask tensors (H, W) patch_size = Ok m ->
  tensors !! i = Some img ->
  Z.of_nat r < H / patch_size ->
  Z.of_nat c < W / patch_size ->
  exists padded validity rows row,
    pad (ones (t_h img) (t_w img) (t_device img))
        (0, W - Z.of_nat (t_w img), 0, H - Z.of_nat (t_h img)) 0%Q = Ok padded /\
    t_planes padded = [validity] /\
    t_planes m = [rows] /\ rows !! i = Some row /\
    let mean := block_mean (Z.to_nat patch_size) validity r c in
    let position := (1 + (r * Z.to_nat (W / patch_size) + c))%nat in
    ((0 < mean)%Q -> row !! position = Some 0%Q) /\
    (~ (0 < mean)%Q -> row !! position = Some large_neg_val) /\
    ((0 < mean)%Q <->
     exists y x : nat,
       Z.of_nat r * patch_size <= Z.of_nat y < (Z.of_nat r + 1) * patch_size /\
       Z.of_nat c * patch_size <= Z.of_nat x < (Z.of_nat c + 1) * patch_size /\
       (y < t_h img)%nat /\ (x < t_w img)%nat).
Proof.
  intros Hm Himg Hr Hc.
  apply create_attention_mask_Ok in Hm as (rows & Hrows & _ & _ & Hplanes & _).
  destruct (Forall2_lookup_l _ _ _ _ _ Hrows Himg) as (row & Hrow & H1d).
  apply mask_row_Ok in H1d as (Hps & HpsH & HpsW & ->).
  destruct (validity_map_Ok (t_h img) (t_w img) H W (t_device img))
    as (padded & Hpad); [lia|lia|].
  pose proof (validity_map_planes _ _ _ _ _ _ Hpad) as (_ & _ & _ & _ & Hval).
  eexists padded, _, rows, _.
  split; [done|]. split; [exact Hval|]. split; [done|]. split; [exact Hrow|].
  cbn zeta. set (k := Z.to_nat patch_size).
  set (V := resize _ _ _).
  assert (Hk : (0 < k)%nat) by (subst k; lia).
  assert (Hrn : (r < Z.to_nat (H / patch_size))%nat) by lia.
  assert (Hcn : (c < Z.to_nat (W / patch_size))%nat) by lia.
  assert (Hlook : forall x : Q,
    (0%Q :: ((fun v : Q => if Qgtb v 0 then 0%Q else large_neg_val) <$>
       concat ((fun r => block_mean k V r <$> seq 0 (Z.to_nat (W / patch_size)))
               <$> seq 0 (Z.to_nat (H / patch_size)))))
      !! (1 + (r * Z.to_nat (W / patch_size) + c))%nat = Some x
    <-> x = (if Qgtb (block_mean k V r c) 0 then 0%Q else large_neg_val)).
  { intros x.
    match goal with
    | |- (?a :: ?l) !! (1 + ?n)%nat = _ <-> _ =>
        change ((a :: l) !! (1 + n)%nat) with (l !! n)
    end.
    rewrite list_lookup_fmap, lookup_flat_grid by done. simpl.
    split; [by intros [= <-] | by intros ->]. }
  assert (HdivH : (r < Z.to_nat H / k)%nat).
  { subst k. apply Nat2Z.inj_lt. rewrite Nat2Z.inj_div, !Z2Nat.id by lia. lia. }
  assert (HdivW : (c < Z.to_nat W / k)%nat).
  { subst k. apply Nat2Z.inj_lt. rewrite Nat2Z.inj_div, !Z2Nat.id by lia. lia. }
  pose proof (validity_block_mean_pos (t_h img) (t_w img)
                (Z.to_nat H) (Z.to_nat W) k r c Hk HdivH HdivW) as Hpos.
  fold V in Hpos.
  split; [|split].
  - intros Hmean. apply Hlook.
    by rewrite (proj2 (Qgtb_true _ _) Hmean).
  - intros Hmean. apply Hlook.
    destruct (Qgtb _ _) eqn:Hg; [|done].
    by apply Qgtb_true in Hg.
  - rewrite Hpos. split.
    + intros [Hrh Hcw]. exists (r * k)%nat, (c * k)%nat. subst k.
      rewrite !Nat2Z.inj_mul, !Z2Nat.id by lia. repeat split; lia.
    + intros (y & x & Hy & Hx & Hyh & Hxw). subst k. split.
      * apply Nat2Z.inj_lt. rewrite Nat2Z.inj_mul, Z2Nat.id by lia. lia.
      * apply Nat2Z.inj_lt. rewrite Nat2Z.inj_mul, Z2Nat.id by lia. lia.
Qed.

Lemma mask_entry_by_block_mean_witness :
  exists m rows row,
    create_attention_mask two_images (40, 33) 16 = Ok m /\
    t_planes m = [rows] /\ rows !! 0%nat = Some row /\
    row !! 4%nat = Some 0%Q.
Proof.
  destruct (create_attention_mask two_images (40, 33) 16) as [m|e] eqn:Hm;
    [|vm_compute in Hm; discriminate].
  destruct (mask_entry_by_block_mean two_images 40 33 16 m 0
              (const_image [] 40 20 7) 1 1 Hm eq_refl)
    as (padded & V & rows & row & _ & _ & Hrows & Hrow & Hvalid & _ & Hiff);
    [reflexivity | reflexivity |].
  exists m, rows, row. split; [done|]. split; [done|]. split; [done|].
  apply Hvalid, Hiff. exists 16%nat, 16%nat. simpl. lia.
Defined.

(** C5.  The attention mask of a built batch has shape
    (N, 1 + floor(Hmax / 16) * floor(Wmax / 16)), where N is the number of
    images and (Hmax, Wmax) the padded size (16 is the patch size the
    builder uses), and entry 0 of every row is 0. *)
Theorem mask_shape_and_leading_token {A} (tensors : list (Tensor A))
    (size_divisibility : Z) (pad_value : A)
    (padding_constraints : option (gmap string Z)) (b : ImageList A) :
  from_tensors tensors size_divisibility pad_value padding_constraints = Ok b ->
  let Hmax := t_h (tensor b) in
  let Wmax := t_w (tensor b) in
  shape (padding_mask b)
    = [length tensors; (1 + (Hmax / 16) * (Wmax / 16))%nat] /\
  exists rows,
    t_planes (padding_mask b) = [rows] /\
    length rows = length tensors /\
    Forall (fun row =>
              length row = (1 + (Hmax / 16) * (Wmax / 16))%nat /\
              row !! 0%nat = Some 0%Q) rows.
Proof.
  intros Hb.
  apply from_tensors_Ok in Hb
    as (t0 & rest & -> & _ & _ & Hh & Hw & _ & Hm).
  cbn zeta in *.
  set (ts := t0 :: rest) in *.
  destruct (target_size (image_sizes_of ts) size_divisibility padding_constraints)
    as [H W] eqn:Hts.
  cbn [fst snd] in *.
  apply create_attention_mask_Ok in Hm as (rows & Hrows & Hlead & Hmh & Hplanes & Hlen).
  assert (Hall : Forall (fun row =>
            length row = (1 + (t_h (tensor b) / 16) * (t_w (tensor b) / 16))%nat /\
            row !! 0%nat = Some 0%Q) rows).
  { apply Forall_forall. intros row Hrow.
    apply list_elem_of_lookup in Hrow as [i Hrow].
    destruct (Forall2_lookup_r _ _ _ _ _ Hrows Hrow) as (img & _ & H1d).
    apply mask_row_Ok in H1d as (_ & HH & HW & ->).
    split; [|done]. cbn [length].
    rewrite length_fmap, length_flat_grid. f_equal.
    rewrite <- Hh, <- Hw.
    change 16 with (Z.of_nat 16). rewrite <- !Nat2Z.inj_div, !Nat2Z.id. done. }
  split.
  - unfold shape. rewrite Hlead, Hmh. cbn [app]. f_equal. f_equal.
    subst ts. destruct rows as [|row rows']; [by inversion Hrows|].
    inversion_clear Hlen as [|? ? Hl _]. inversion_clear Hall as [|? ? [Hl' _] _].
    congruence.
  - exists rows. split; [done|]. split; [|done].
    symmetry. exact (Forall2_length _ _ _ Hrows).
Qed.

Lemma mask_shape_and_leading_token_witness :
  exists b,
    from_tensors two_images 0 0 None = Ok b /\
    shape (padding_mask b) = [2; 5]%nat.
Proof.
  destruct (from_tensors two_images 0 0 None) as [b|e] eqn:Hb;
    [|vm_compute in Hb; discriminate].
  exists b. split; [done|].
  destruct (mask_shape_and_leading_token two_images 0 0 None b Hb) as [Hs _].
  rewrite Hs. vm_compute in Hb. injection Hb as <-. reflexivity.
Defined.

(** ** The padded size *)

Lemma image_sizes_of_fst {A} (tensors : list (Tensor A)) :
  fst <$> image_sizes_of tensors = (fun t => Z.of_nat (t_h t)) <$> tensors.
Proof. unfold image_sizes_of. rewrite <- list_fmap_compose. done. Qed.

Lemma image_sizes_of_snd {A} (tensors : list (Tensor A)) :
  snd <$> image_sizes_of tensors = (fun t => Z.of_nat (t_w t)) <$> tensors.
Proof. unfold image_sizes_of. rewrite <- list_fmap_compose. done. Qed.




(** C1 (as the code has it).  With a positive square size, both padded
    dimensions of a built batch are the square size rounded up to the next
    multiple of the size divisibility in force when that is above 1; they
    are exactly the square size when the divisibility is at most 1.  The
    rounding is done in int64: the square size plus the divisibility is
    assumed not to exceed 2^63. *)
Theorem square_size_then_divisibility {A} (tensors : list (Tensor A))
    (size_divisibility : Z) (pad_value : A)
    (padding_constraints : option (gmap string Z)) (b : ImageList A) :
  0 < square_size_of padding_constraints ->
  square_size_of padding_constraints
    + effective_divisibility size_divisibility padding_constraints <= 2 ^ 63 ->
  from_tensors tensors size_divisibility pad_value padding_constraints = Ok b ->
  let d := effective_divisibility size_divisibility padding_constraints in
  let s := square_size_of padding_constraints in
  rounded_up_to d s (Z.of_nat (t_h (tensor b))) /\
  rounded_up_to d s (Z.of_nat (t_w (tensor b))).
Proof.
  intros Hsq Hbound Hb.
  pose proof (from_tensors_Ok_size _ _ _ _ _ Hb) as Hsize.
  apply from_tensors_Ok in Hb as (t0 & rest & -> & _ & _ & Hh & Hw & _).
  cbn zeta in *.
  apply compute_max_size_Ok in Hsize as (_ & _ & Hms). cbn zeta in Hms.
  destruct (Z.ltb_spec 0 (square_size_of padding_constraints)); [|lia].
  rewrite Hh, Hw. unfold rounded_up_to.
  set (d := effective_divisibility size_divisibility padding_constraints) in *.
  destruct (Z.ltb_spec 1 d) as [Hd|Hd]; [|by rewrite Hms].
  destruct Hms as [_ ->]. cbn [fst snd].
  rewrite !round_up_int64_exact by lia.
  split; by apply round_up_spec.
Qed.

Lemma square_size_then_divisibility_witness :
  exists b,
    from_tensors [const_image [] 20 10 7] 5 0 (square_constraint 32) = Ok b /\
    Z.of_nat (t_h (tensor b)) = 35 /\ Z.of_nat (t_w (tensor b)) = 35.
Proof.
  destruct (from_tensors [const_image [] 20 10 7] 5 0 (square_constraint 32))
    as [b|e] eqn:Hb; [|vm_compute in Hb; discriminate].
  exists b. split; [done|].
  destruct (square_size_then_divisibility
              [const_image [] 20 10 7] 5 0 (square_constraint 32) b)
    as [[[qh Hqh] Hh] [[qw Hqw] Hw]]; [reflexivity | vm_compute; discriminate | done |].
  change (square_size_of (square_constraint 32)) with 32 in Hh, Hw.
  change (effective_divisibility 5 (square_constraint 32)) with 5 in *.
  split; lia.
Defined.

(** C1 as stated fails: a square size of 32 with a size divisibility of 5
    pads a 20 x 10 image to 35 x 35, not 32 x 32. *)
Lemma square_size_not_exact_counterexample :
  exists b,
    from_tensors [const_image [] 20 10 7] 5 0 (square_constraint 32) = Ok b /\
    0 < square_size_of (square_constraint 32) /\
    shape (tensor b) = [1; 35; 35]%nat /\
    shape (tensor b) <> [1; 32; 32]%nat.
Proof.
  eexists. split; [vm_compute; reflexivity|].
  split; [reflexivity|]. split; [reflexivity|]. discriminate.
Qed.

(** ** Device transfer *)

(** C9.  [to] allocates a new batch whose data holds the elements of the
    original data, on the target device; the new batch has the sizes and
    the mask of the original, and no object that was in the store,
    the original batch among them, is changed. *)
Theorem to_is_a_pure_factory {A} (σ : gmap nat (ImageList A)) (self : nat)
    (il : ImageList A) (d : device) :
  σ !! self = Some il ->
  exists new σ' il',
    to_method self d σ = Some (new, σ') /\
    σ !! new = None /\
    σ' !! new = Some il' /\
    shape (tensor il') = shape (tensor il) /\
    t_planes (tensor il') = t_planes (tensor il) /\
    t_device (tensor il') = d /\
    image_sizes il' = image_sizes il /\
    padding_mask il' = padding_mask il /\
    (forall l, l <> new -> σ' !! l = σ !! l) /\
    σ' !! self = Some il.
Proof.
  intros Hself. unfold to_method, alloc. rewrite Hself. simpl.
  set (new := fresh (dom σ)).
  assert (Hnew : σ !! new = None).
  { apply not_elem_of_dom. apply is_fresh. }
  exists new, (<[new := to il d]> σ), (to il d).
  split; [done|]. split; [done|].
  split; [by rewrite lookup_insert_eq|].
  repeat (split; [done|]).
  split.
  - intros l Hl. by rewrite lookup_insert_ne.
  - rewrite lookup_insert_ne; [done|]. intros ->. congruence.
Qed.

Lemma to_is_a_pure_factory_witness :
  exists new σ',
    to_method 0%nat (cuda 0) {[ 0%nat := sample_batch ]} = Some (new, σ') /\
    σ' !! 0%nat = Some sample_batch /\
    (t_device ∘ tensor) <$> σ' !! new = Some (cuda 0).
Proof.
  destruct (to_is_a_pure_factory {[ 0%nat := sample_batch ]} 0 sample_batch (cuda 0))
    as (new & σ' & il' & Hto & _ & Hnew & _ & _ & Hd & _ & _ & _ & Hself);
    [reflexivity|].
  exists new, σ'. split; [done|]. split; [done|].
  rewrite Hnew. simpl. by rewrite Hd.
Defined.

(** ** Indexing *)

Lemma py_index_nonneg (idx : Z) (n : nat) :
  0 <= idx < Z.of_nat n -> py_index idx n = Ok (Z.to_nat idx).
Proof.
  intros H. unfold py_index.
  destruct (Z.leb_spec 0 idx); [|lia].
  destruct (Z.ltb_spec idx (Z.of_nat n)); [done|lia].
Qed.

Lemma py_index_neg (idx : Z) (n : nat) :
  - Z.of_nat n <= idx < 0 -> py_index idx n = Ok (Z.to_nat (Z.of_nat n + idx)).
Proof.
  intros H. unfold py_index.
  destruct (Z.leb_spec 0 idx); [lia|]. simpl.
  destruct (Z.leb_spec (- Z.of_nat n) idx); [|lia].
  destruct (Z.ltb_spec idx 0); [done|lia].
Qed.

Lemma py_index_out (idx : Z) (n : nat) :
  idx < - Z.of_nat n \/ Z.of_nat n <= idx -> py_index idx n = Raise IndexError.
Proof.
  intros H. unfold py_index.
  destruct (Z.leb_spec 0 idx); destruct (Z.ltb_spec idx (Z.of_nat n));
    simpl; try lia;
    destruct (Z.leb_spec (- Z.of_nat n) idx); destruct (Z.ltb_spec idx 0);
    simpl; try lia; done.
Qed.

Lemma py_slice_to_nonneg (k : Z) (n : nat) :
  0 <= k -> py_slice_to k n = Nat.min (Z.to_nat k) n.
Proof. intros H. unfold py_slice_to. destruct (Z.ltb_spec k 0); [lia|done]. Qed.

Lemma sub_planes_lookup {B} (l : list B) (P i p : nat) :
  (p < P)%nat -> sub_planes P i l !! p = l !! (i * P + p)%nat.
Proof.
  intros Hp. unfold sub_planes.
  rewrite lookup_take_lt by done. by rewrite lookup_drop.
Qed.

Lemma t_at_crop {A} (src t : Tensor A) (h w P i p y x : nat) :
  t_planes t
    = (fun pl => take w <$> take h pl) <$> sub_planes P i (t_planes src) ->
  (p < P)%nat -> (y < h)%nat -> (x < w)%nat ->
  t_at t p y x = t_at src (i * P + p) y x.
Proof.
  intros Ht Hp Hy Hx. unfold t_at. rewrite Ht.
  rewrite list_lookup_fmap, sub_planes_lookup by done.
  destruct (t_planes src !! (i * P + p)%nat) as [plane|]; simpl; [|done].
  rewrite list_lookup_fmap, lookup_take_lt by done.
  destruct (plane !! y) as [row|]; simpl; [|done].
  by rewrite lookup_take_lt.
Qed.

(** C8 (as the code has it).  On a built batch of N images, [get(i)]
    fails with an index error for i >= N and for i < -N; an index in
    [-N, 0) counts from the end, as N + i; and for i in [0, N) the call
    returns the sub-array [data[i, ..., :h, :w]] for [(h, w) = sizes[i]]:
    its shape is the leading shape with [h] and [w] (cut at the padded
    size), and its elements are those of [data] at the same coordinates
    under index [i]. *)
Theorem getitem_index_range {A} (tensors : list (Tensor A))
    (size_divisibility : Z) (pad_value : A)
    (padding_constraints : option (gmap string Z)) (b : ImageList A) (idx : Z) :
  from_tensors tensors size_divisibility pad_value padding_constraints = Ok b ->
  let N := Z.of_nat (length tensors) in
  (idx < - N \/ N <= idx -> getitem b idx = Raise IndexError) /\
  (- N <= idx < 0 -> getitem b idx = getitem b (N + idx)) /\
  (0 <= idx < N ->
   exists (h w : nat) (t : Tensor A),
     image_sizes b !! Z.to_nat idx = Some (Z.of_nat h, Z.of_nat w) /\
     getitem b idx = Ok t /\
     t_lead (tensor b) = length tensors :: t_lead t /\
     t_h t = Nat.min h (t_h (tensor b)) /\
     t_w t = Nat.min w (t_w (tensor b)) /\
     forall p y x : nat,
       (p < prod_list (t_lead t))%nat -> (y < t_h t)%nat -> (x < t_w t)%nat ->
       t_at t p y x
       = t_at (tensor b) (Z.to_nat idx * prod_list (t_lead t) + p) y x).
Proof.
  intros Hb.
  apply from_tensors_Ok in Hb as (t0 & rest & -> & _ & Hlead & _ & _ & Hsizes & _).
  set (ts := t0 :: rest) in *. cbn zeta.
  assert (Hlen : length (image_sizes b) = length ts).
  { by rewrite Hsizes, image_sizes_of_length. }
  unfold getitem, list_getitem, index_crop. rewrite Hlead, Hlen.
  split; [|split].
  - intros Hout. by rewrite py_index_out.
  - intros Hneg. rewrite py_index_neg by done.
    rewrite (py_index_nonneg (_ + idx)) by lia. done.
  - intros Hin. rewrite py_index_nonneg by done. cbn [mbind result_bind].
    destruct (lookup_lt_is_Some_2 ts (Z.to_nat idx)) as [img Himg]; [lia|].
    assert (Hsz : image_sizes b !! Z.to_nat idx
                  = Some (Z.of_nat (t_h img), Z.of_nat (t_w img))).
    { rewrite Hsizes. unfold image_sizes_of.
      by rewrite list_lookup_fmap, Himg. }
    rewrite Hsz. cbn [mbind result_bind fst snd].
    rewrite !py_slice_to_nonneg by lia. rewrite !Nat2Z.id.
    eexists (t_h img), (t_w img), _.
    split; [done|]. split; [reflexivity|]. cbn [t_lead t_h t_w].
    split; [done|]. split; [done|]. split; [done|].
    intros p y x Hp Hy Hx. by eapply t_at_crop.
Qed.

Lemma getitem_index_range_witness :
  exists b,
    from_tensors [const_image [] 16 16 7] 0 0 None = Ok b /\
    getitem b 1 = Raise IndexError /\
    getitem b (-1) = getitem b 0.
Proof.
  destruct (from_tensors [const_image [] 16 16 7] 0 0 None) as [b|e] eqn:Hb;
    [|vm_compute in Hb; discriminate].
  exists b. split; [done|].
  pose proof (getitem_index_range _ _ _ _ b 1 Hb) as (Hout & _ & _).
  pose proof (getitem_index_range _ _ _ _ b (-1) Hb) as (_ & Hneg & _).
  split; [apply Hout; simpl; lia | apply Hneg; simpl; lia].
Defined.

(** C8 as stated fails: index -1 is outside [0, N) and [get(-1)] returns
    the last image instead of failing. *)
Lemma getitem_negative_index_counterexample :
  exists b,
    from_tensors [const_image [] 16 16 7] 0 0 None = Ok b /\
    -1 < 0 /\
    getitem b (-1) <> Raise IndexError /\
    (shape <$> getitem b (-1)) = Ok [16; 16]%nat.
Proof.
  eexists. split; [vm_compute; reflexivity|].
  split; [lia|]. split; [vm_compute; discriminate | vm_compute; reflexivity].
Qed.

(** ** When the builder fails and when it returns *)

Section BuilderOutcome.
Context {A : Type}.
Implicit Types (t img dst : Tensor A) (tensors : list (Tensor A)).

Lemma check_leading_Ok t0 tensors :
  Forall (fun t => t_lead t = t_lead t0) tensors ->
  check_leading t0 tensors = Ok ().
Proof.
  induction 1 as [|t l Ht _ IH]; simpl; [done|].
  by rewrite bool_decide_eq_true_2.
Qed.

Lemma check_leading_Raise t0 tensors :
  Exists (fun t => t_lead t <> t_lead t0) tensors ->
  exists t, t ∈ tensors /\ t_lead t <> t_lead t0 /\
            check_leading t0 tensors = Raise (AssertionError [shape t]).
Proof.
  induction tensors as [|t l IH]; intros Hex; [by inversion Hex|]. simpl.
  destruct (decide (t_lead t = t_lead t0)) as [Heq|Hne].
  - rewrite bool_decide_eq_true_2 by done.
    inversion_clear Hex as [? ? Hne|? ? Hl]; [done|].
    destruct (IH Hl) as (t' & Hin & Hne & Hr).
    exists t'. split; [by right|done].
  - rewrite bool_decide_eq_false_2 by done.
    exists t. split; [by left|done].
Qed.








End BuilderOutcome.

(** The maximum of sizes that int64 holds is a size that int64 holds. *)
Lemma max_hw_in_range {A} (tensors : list (Tensor A)) :
  tensors <> [] ->
  Forall (fun s : Z * Z => (int64_min <= s.1 <= int64_max) /\
                           (int64_min <= s.2 <= int64_max))
    (image_sizes_of tensors) ->
  0 <= (max_hw (image_sizes_of tensors)).1 <= int64_max /\
  0 <= (max_hw (image_sizes_of tensors)).2 <= int64_max.
Proof.
  intros Hne Hrange.
  destruct tensors as [|t0 rest]; [done|].
  set (ts := t0 :: rest) in *.
  destruct (max_hw_is_max (image_sizes_of ts)) as [[HinH _] [HinW _]]; [done|].
  rewrite Forall_forall in Hrange. split.
  - apply list_elem_of_In, list_elem_of_fmap in HinH as (s & -> & Hs).
    destruct (Hrange s Hs) as [? _]. unfold image_sizes_of in Hs.
    apply list_elem_of_fmap in Hs as (t & -> & _). simpl in *. lia.
  - apply list_elem_of_In, list_elem_of_fmap in HinW as (s & -> & Hs).
    destruct (Hrange s Hs) as [_ ?]. unfold image_sizes_of in Hs.
    apply list_elem_of_fmap in Hs as (t & -> & _). simpl in *. lia.
Qed.

(** Without a square size every image fits in a padded size that is not
    negative: the int64 rounding either wraps to a negative size or stays
    at or above the maximum. *)
Lemma images_fit_without_square {A} (tensors : list (Tensor A)) sd pc ms :
  square_size_of pc <= 0 ->
  compute_max_size (image_sizes_of tensors) sd pc = Ok ms ->
  0 <= ms.1 -> 0 <= ms.2 ->
  Forall (fun t => Z.of_nat (t_h t) <= ms.1 /\
                   Z.of_nat (t_w t) <= ms.2) tensors.
Proof.
  intros Hsq Hms H0 W0.
  apply compute_max_size_Ok in Hms as (Hrange & _ & Hms). cbn zeta in Hms.
  destruct (Z.ltb_spec 0 (square_size_of pc)); [lia|].
  destruct tensors as [|t0 rest]; [constructor|].
  set (ts := t0 :: rest) in *.
  destruct (max_hw_is_max (image_sizes_of ts)) as [[HinH HH] [HinW HW]]; [done|].
  assert (HmH : 0 <= (max_hw (image_sizes_of ts)).1 <= int64_max).
  { apply list_elem_of_In, list_elem_of_fmap in HinH as (s & -> & Hs).
    rewrite Forall_forall in Hrange. destruct (Hrange s Hs) as [? _].
    unfold image_sizes_of in Hs.
    apply list_elem_of_fmap in Hs as (t & -> & _). simpl in *. lia. }
  assert (HmW : 0 <= (max_hw (image_sizes_of ts)).2 <= int64_max).
  { apply list_elem_of_In, list_elem_of_fmap in HinW as (s & -> & Hs).
    rewrite Forall_forall in Hrange. destruct (Hrange s Hs) as [_ ?].
    unfold image_sizes_of in Hs.
    apply list_elem_of_fmap in Hs as (t & -> & _). simpl in *. lia. }
  rewrite image_sizes_of_fst in HH. rewrite image_sizes_of_snd in HW.
  rewrite Forall_fmap in HH, HW.
  apply Forall_forall. intros t Ht.
  rewrite Forall_forall in HH, HW. specialize (HH t Ht). specialize (HW t Ht).
  unfold compose in HH, HW.
  destruct (Z.ltb_spec 1 (effective_divisibility sd pc)) as [Hd|Hd];
    [|subst ms; done].
  destruct Hms as [Hdmax ->]. cbn [fst snd] in *.
  pose proof (round_up_int64_ge _ _ HmH (conj Hd Hdmax) H0).
  pose proof (round_up_int64_ge _ _ HmW (conj Hd Hdmax) W0).
  lia.
Qed.




(** Each proviso of C7 is needed.  Two images under a square size that is
    smaller than the first raise at the copy of lines 140-143. *)
Lemma oversized_image_counterexample :
  from_tensors [const_image [] 20 20 7; const_image [] 16 16 7] 0 0
    (square_constraint 16)
  = Raise RuntimeError.
Proof. vm_compute. reflexivity. Qed.

(** Images on two devices raise at the stack of line 169. *)
Lemma mixed_devices_counterexample :
  from_tensors [mkTensor [] 16 16 [replicate 16 (replicate 16 7)] (cuda 1);
                const_image [] 16 16 7] 0 0 None
  = Raise RuntimeError.
Proof. vm_compute. reflexivity. Qed.

(** A size divisibility of 2^63 - 1 makes the int64 rounding of one
    16 x 16 image wrap to - (2^63 - 1), and the padding raises. *)
Lemma wrapped_size_counterexample :
  compute_max_size (image_sizes_of [const_image [] 16 16 7]) (2 ^ 63 - 1) None
    = Ok (- (2 ^ 63 - 1), - (2 ^ 63 - 1)) /\
  from_tensors [const_image [] 16 16 7] (2 ^ 63 - 1) 0 None = Raise RuntimeError.
Proof. split; vm_compute; reflexivity. Qed.

(** ** The mask does not depend on the pixels *)

Section Noninterference.
Context {A : Type}.
Implicit Types (t img dst : Tensor A) (tensors : list (Tensor A)).

Lemma same_outcome_bind {T1 T2 U1 U2} (R : T1 -> T2 -> Prop)
    (S : U1 -> U2 -> Prop) (m1 : result T1) (m2 : result T2)
    (f1 : T1 -> result U1) (f2 : T2 -> result U2) :
  same_outcome R m1 m2 ->
  (forall a b, R a b -> same_outcome S (f1 a) (f2 b)) ->
  same_outcome S (m1 ≫= f1) (m2 ≫= f2).
Proof. destruct m1, m2; simpl; auto; done. Qed.

Lemma same_outcome_fmap {T1 T2 U} (f : T1 -> U) (g : T2 -> U)
    (r1 : result T1) (r2 : result T2) :
  same_outcome (fun a b => f a = g b) r1 r2 -> f <$> r1 = g <$> r2.
Proof. destruct r1, r2; simpl; intros H; [by f_equal | done | done | by subst]. Qed.

Lemma same_outcome_eq {T} (r1 r2 : result T) :
  r1 = r2 -> same_outcome eq r1 r2.
Proof. intros ->. by destruct r2. Qed.

Lemma shape_eq_same_shape t1 t2 : shape t1 = shape t2 -> same_shape t1 t2.
Proof.
  unfold shape, same_shape. intros H.
  apply app_inj_2 in H as [Hl [= Hh Hw]]; done.
Qed.

Lemma attention_mask_1d_same_shape t1 t2 max_size ps :
  same_shape t1 t2 -> t_device t1 = t_device t2 ->
  attention_mask_1d t1 max_size ps = attention_mask_1d t2 max_size ps.
Proof.
  intros (_ & Hh & Hw) Hd. unfold attention_mask_1d. by rewrite Hh, Hw, Hd.
Qed.

(** The elements of a row depend on the shape of the image only. *)
Lemma attention_mask_1d_same_elems t1 t2 max_size ps :
  same_shape t1 t2 ->
  v_elems <$> attention_mask_1d t1 max_size ps
  = v_elems <$> attention_mask_1d t2 max_size ps.
Proof.
  intros (_ & Hh & Hw). unfold attention_mask_1d. cbn [fst snd].
  rewrite Hh, Hw. unfold pad, ones. cbn [t_lead t_h t_w t_planes t_device].
  destruct (_ || _); [done|]. cbn [mbind result_bind].
  unfold avg_pool2d. cbn [unsqueeze0 t_lead t_h t_w t_planes t_device].
  destruct (negb _); [done|]. destruct (ps <=? 0); [done|].
  destruct (_ || _); [done|]. cbn [mbind result_bind].
  unfold cat, view_flat, tensor_map. cbn [v_device t_device].
  rewrite !bool_decide_eq_true_2 by done. done.
Qed.

Lemma mapM_same {T U} (R : T -> T -> Prop) (f : T -> result U) (l1 l2 : list T) :
  (forall a b, R a b -> f a = f b) ->
  Forall2 R l1 l2 -> mapM f l1 = mapM f l2.
Proof.
  intros Hf. induction 1 as [|a b l1 l2 Hab _ IH]; simpl; [done|].
  by rewrite (Hf a b Hab), IH.
Qed.

Lemma create_attention_mask_same_shape tensors1 tensors2 max_size ps :
  Forall2 (fun t1 t2 => same_shape t1 t2 /\ t_device t1 = t_device t2)
    tensors1 tensors2 ->
  create_attention_mask tensors1 max_size ps
  = create_attention_mask tensors2 max_size ps.
Proof.
  intros Hts. unfold create_attention_mask.
  rewrite (mapM_same _ _ tensors1 tensors2
             (fun a b Hab => attention_mask_1d_same_shape a b max_size ps
                               (proj1 Hab) (proj2 Hab)) Hts).
  done.
Qed.

(** Two masks that were returned for images of the same shapes hold the
    same rows. *)
Lemma mask_rows_same_shape tensors1 tensors2 max_size ps
    (rows1 rows2 : list (list Q)) :
  Forall2 same_shape tensors1 tensors2 ->
  Forall2 (fun img row =>
             exists v, attention_mask_1d img max_size ps = Ok v /\
                       v_elems v = row) tensors1 rows1 ->
  Forall2 (fun img row =>
             exists v, attention_mask_1d img max_size ps = Ok v /\
                       v_elems v = row) tensors2 rows2 ->
  rows1 = rows2.
Proof.
  intros Hts. revert rows1 rows2.
  induction Hts as [|t1 t2 l1 l2 Ht _ IH]; intros rows1 rows2 H1 H2.
  - inversion H1. by inversion H2.
  - inversion H1 as [|? r1 ? k1 (v1 & Hv1 & Hr1) Hk1]; subst.
    inversion H2 as [|? r2 ? k2 (v2 & Hv2 & Hr2) Hk2]; subst.
    pose proof (attention_mask_1d_same_elems t1 t2 max_size ps Ht) as He.
    rewrite Hv1, Hv2 in He. injection He as ->.
    f_equal. by apply IH.
Qed.

Lemma check_leading_same_shape t1 t2 tensors1 tensors2 :
  same_shape t1 t2 -> Forall2 same_shape tensors1 tensors2 ->
  check_leading t1 tensors1 = check_leading t2 tensors2.
Proof.
  intros (Hl0 & _). induction 1 as [|a b l1 l2 (Hl & Hh & Hw) _ IH]; simpl; [done|].
  rewrite Hl0, Hl, IH. unfold shape. by rewrite Hl, Hh, Hw.
Qed.

Lemma image_sizes_of_same_shape tensors1 tensors2 :
  Forall2 same_shape tensors1 tensors2 ->
  image_sizes_of tensors1 = image_sizes_of tensors2.
Proof.
  induction 1 as [|a b l1 l2 (_ & Hh & Hw) _ IH]; [done|].
  unfold image_sizes_of in *. rewrite !fmap_cons. by rewrite Hh, Hw, IH.
Qed.

Lemma pad_same_shape t1 t2 padding (v1 v2 : A) :
  same_shape t1 t2 ->
  same_outcome same_shape (pad t1 padding v1) (pad t2 padding v2).
Proof.
  intros (Hl & Hh & Hw). unfold pad. destruct padding as [[[pl pr] pt] pb].
  rewrite Hh, Hw. destruct (_ || _); [done|]. simpl. done.
Qed.

Lemma new_full_same_shape like1 like2 lead h w (v1 v2 : A) :
  same_outcome same_shape (new_full like1 lead h w v1)
    (new_full like2 lead h w v2).
Proof. unfold new_full. destruct (_ || _); done. Qed.

Lemma copy_into_same_shape dst1 dst2 i img1 img2 :
  same_shape dst1 dst2 -> same_shape img1 img2 ->
  same_outcome same_shape (copy_into dst1 i img1) (copy_into dst2 i img2).
Proof.
  intros (Hl & Hh & Hw) (Hl' & Hh' & Hw'). unfold copy_into.
  rewrite Hl, Hh, Hw, Hl', Hh', Hw'.
  destruct (t_lead dst2) as [|n lead] eqn:Hd; [done|].
  destruct (negb _); [done|]. destruct (_ && _); [|done].
  simpl. unfold same_shape; simpl. done.
Qed.

Lemma copy_all_same_shape tensors1 tensors2 :
  Forall2 same_shape tensors1 tensors2 ->
  forall dst1 dst2 i, same_shape dst1 dst2 ->
  same_outcome same_shape (copy_all dst1 i tensors1) (copy_all dst2 i tensors2).
Proof.
  induction 1 as [|a b l1 l2 Hab _ IH]; intros dst1 dst2 i Hdst; simpl; [done|].
  eapply same_outcome_bind; [by apply copy_into_same_shape|].
  intros d1 d2 Hd. by apply IH.
Qed.

Lemma from_tensors_same_shape tensors1 tensors2 sd (pv : A) pc :
  Forall2 (fun t1 t2 => same_shape t1 t2 /\ t_device t1 = t_device t2)
    tensors1 tensors2 ->
  same_outcome (fun b1 b2 => mask_values b1 = mask_values b2)
    (from_tensors tensors1 sd pv pc) (from_tensors tensors2 sd pv pc).
Proof.
  intros Htsd.
  assert (Hts : Forall2 same_shape tensors1 tensors2).
  { eapply Forall2_impl; [exact Htsd|]. by intros ? ? [? _]. }
  pose proof (Forall2_length _ _ _ Hts) as Hlen.
  pose proof (image_sizes_of_same_shape _ _ Hts) as Hsizes.
  assert (Hmask : forall ms,
    same_outcome (fun m1 m2 => shape m1 = shape m2 /\ t_planes m1 = t_planes m2)
      (create_attention_mask tensors1 ms 16) (create_attention_mask tensors2 ms 16)).
  { intros ms. rewrite (create_attention_mask_same_shape _ _ ms 16 Htsd).
    by destruct (create_attention_mask tensors2 ms 16). }
  destruct Hts as [|t1 t2 rest1 rest2 Ht Hrest]; [done|].
  rewrite !from_tensors_cons, Hlen, Hsizes.
  eapply same_outcome_bind.
  { apply same_outcome_eq, check_leading_same_shape; [done | by constructor]. }
  intros _ _ _.
  eapply same_outcome_bind; [by apply same_outcome_eq|].
  intros ms ? <-. specialize (Hmask ms).
  destruct (length (t2 :: rest2) =? 1)%nat.
  - unfold single_image_path.
    change (image_sizes_of (t2 :: rest2))
      with ((Z.of_nat (t_h t2), Z.of_nat (t_w t2)) :: image_sizes_of rest2).
    eapply same_outcome_bind
      with (R := fun _ _ => True).
    { pose proof (pad_same_shape t1 t2
        (0, ms.2 - Z.of_nat (t_w t2), 0, ms.1 - Z.of_nat (t_h t2)) pv pv Ht) as Hp.
      cbn [fst snd].
      destruct (pad t1 _ _), (pad t2 _ _); done. }
    intros d1 d2 _. eapply same_outcome_bind; [exact Hmask|].
    intros m1 m2 [Hs Hp]. unfold mask_values; simpl. by rewrite Hs, Hp.
  - unfold general_path.
    destruct Ht as (Hl & Hh & Hw). rewrite Hl, Hlen.
    eapply same_outcome_bind; [apply new_full_same_shape|].
    intros f1 f2 Hf.
    eapply same_outcome_bind with (R := same_shape).
    { apply copy_all_same_shape; [by constructor|].
      unfold move_device_like, tensor_to, same_shape in *; simpl. done. }
    intros d1 d2 _. eapply same_outcome_bind; [exact Hmask|].
    intros m1 m2 [Hs Hp]. unfold mask_values; simpl. by rewrite Hs, Hp.
Qed.

(** Two built batches for images of the same shapes hold the same mask
    values. *)
Lemma built_masks_same_shape tensors1 tensors2 sd (pv : A) pc b1 b2 :
  Forall2 same_shape tensors1 tensors2 ->
  from_tensors tensors1 sd pv pc = Ok b1 ->
  from_tensors tensors2 sd pv pc = Ok b2 ->
  mask_values b1 = mask_values b2.
Proof.
  intros Hts Hb1 Hb2.
  pose proof (image_sizes_of_same_shape _ _ Hts) as Hsizes.
  pose proof (Forall2_length _ _ _ Hts) as Hlen.
  apply from_tensors_Ok in Hb1 as (t1 & rest1 & -> & _ & _ & _ & _ & _ & Hm1).
  apply from_tensors_Ok in Hb2 as (t2 & rest2 & -> & _ & _ & _ & _ & _ & Hm2).
  cbn zeta in Hm1, Hm2. rewrite Hsizes in Hm1.
  apply create_attention_mask_Ok in Hm1 as (rows1 & Hr1 & Hl1 & Hh1 & Hp1 & Hw1).
  apply create_attention_mask_Ok in Hm2 as (rows2 & Hr2 & Hl2 & Hh2 & Hp2 & Hw2).
  pose proof (mask_rows_same_shape _ _ _ _ _ _ Hts Hr1 Hr2) as <-.
  unfold mask_values, shape. rewrite Hl1, Hl2, Hh1, Hh2, Hp1, Hp2, Hlen.
  destruct rows1 as [|row rows]; [by inversion Hr1|].
  apply Forall_cons in Hw1 as [<- _]. apply Forall_cons in Hw2 as [<- _]. done.
Qed.
End Noninterference.

(** C10.  Two input lists whose corresponding images have the same shapes
    give, under the same configuration, the same attention mask whenever
    the builder returns on both: the mask does not depend on the pixel
    values.  When the corresponding images are also on the same devices,
    the two runs end alike: both return, with the same mask, or both
    raise the same exception. *)
Theorem mask_depends_on_shapes_only {A} (tensors1 tensors2 : list (Tensor A))
    (size_divisibility : Z) (pad_value : A)
    (padding_constraints : option (gmap string Z)) :
  Forall2 (fun t1 t2 => shape t1 = shape t2) tensors1 tensors2 ->
  (forall b1 b2,
     from_tensors tensors1 size_divisibility pad_value padding_constraints
       = Ok b1 ->
     from_tensors tensors2 size_divisibility pad_value padding_constraints
       = Ok b2 ->
     mask_values b1 = mask_values b2) /\
  (Forall2 (fun t1 t2 => t_device t1 = t_device t2) tensors1 tensors2 ->
   mask_values <$> from_tensors tensors1 size_divisibility pad_value
                     padding_constraints
   = mask_values <$> from_tensors tensors2 size_divisibility pad_value
                       padding_constraints).
Proof.
  intros Hshapes.
  assert (Hts : Forall2 same_shape tensors1 tensors2).
  { eapply Forall2_impl; [exact Hshapes|].
    intros t1 t2. apply shape_eq_same_shape. }
  split.
  - intros b1 b2. by apply built_masks_same_shape.
  - intros Hdev. apply same_outcome_fmap, from_tensors_same_shape.
    clear Hshapes. induction Hts as [|t1 t2 l1 l2 Ht _ IH]; [constructor|].
    apply Forall2_cons in Hdev as [Hd Hdev]. constructor; auto.
Qed.

Lemma mask_depends_on_shapes_only_witness :
  exists b1 b2,
    from_tensors [const_image [] 20 40 1; const_image [] 33 16 2] 0 0 None
      = Ok b1 /\
    from_tensors [const_image [] 20 40 3; const_image [] 33 16 4] 0 0 None
      = Ok b2 /\
    mask_values b1 = mask_values b2.
Proof.
  destruct (from_tensors [const_image [] 20 40 1; const_image [] 33 16 2]
              0 0 None) as [b1|e] eqn:Hb1; [|vm_compute in Hb1; discriminate].
  destruct (from_tensors [const_image [] 20 40 3; const_image [] 33 16 4]
              0 0 None) as [b2|e] eqn:Hb2; [|vm_compute in Hb2; discriminate].
  exists b1, b2. split; [done|]. split; [done|].
  destruct (mask_depends_on_shapes_only
              [const_image [] 20 40 1; const_image [] 33 16 2]
              [const_image [] 20 40 3; const_image [] 33 16 4] 0 0 None)
    as [Hmask _]; [repeat constructor|].
  by apply Hmask.
Defined.

(** ** Padding, copying and cropping of well-formed images *)

Section PadCopyCrop.
Context {A : Type}.
Implicit Types (t img dst : Tensor A) (tensors : list (Tensor A))
  (p d : list (list A)).

Lemma pad_wf t (H W : Z) (v : A) :
  wf_tensor t -> 0 <= H -> 0 <= W ->
  pad t (0, W - Z.of_nat (t_w t), 0, H - Z.of_nat (t_h t)) v
  = Ok {| t_lead := t_lead t; t_h := Z.to_nat H; t_w := Z.to_nat W;
          t_planes :=
            (fun p => resize (Z.to_nat H) (replicate (Z.to_nat W) v)
                        (resize (Z.to_nat W) v <$> p)) <$> t_planes t;
          t_device := t_device t |}.
Proof.
  intros [_ Hwf] HH HW. unfold pad.
  replace (Z.of_nat (t_w t) + 0 + (W - Z.of_nat (t_w t))) with W by lia.
  replace (Z.of_nat (t_h t) + 0 + (H - Z.of_nat (t_h t))) with H by lia.
  destruct (Z.ltb_spec W 0); [lia|]. destruct (Z.ltb_spec H 0); [lia|].
  cbn [orb]. f_equal. f_equal.
  apply Forall_fmap_ext. eapply Forall_impl; [exact Hwf|].
  intros p [Hlen Hrows]. cbn beta.
  rewrite !pad_axis_0, length_fmap, Hlen.
  replace (Z.of_nat (t_h t) + (H - Z.of_nat (t_h t))) with H by lia.
  f_equal. apply Forall_fmap_ext. eapply Forall_impl; [exact Hrows|].
  intros row Hrow. cbn beta. rewrite pad_axis_0, Hrow.
  by replace (Z.of_nat (t_w t) + (W - Z.of_nat (t_w t))) with W by lia.
Qed.

Lemma overlay_full_plane (h w H W : nat) (v : A) p :
  wf_plane h w p -> (h <= H)%nat -> (w <= W)%nat ->
  overlay_plane h w p (replicate H (replicate W v))
  = resize H (replicate W v) (resize W v <$> p).
Proof.
  intros [Hlen Hrows] Hh Hw. unfold overlay_plane.
  rewrite take_ge by lia.
  rewrite take_replicate, Nat.min_l, drop_replicate by done.
  rewrite zip_with_replicate_r_eq by done.
  rewrite resize_ge by (rewrite length_fmap; lia).
  rewrite length_fmap, Hlen. f_equal.
  apply Forall_fmap_ext. eapply Forall_impl; [exact Hrows|].
  intros row Hrow. unfold flip. cbn beta in Hrow.
  rewrite take_ge, drop_replicate, resize_ge, Hrow by lia. done.
Qed.

Lemma crop_padded_plane (h w H W : nat) (v : A) p :
  wf_plane h w p -> (h <= H)%nat -> (w <= W)%nat ->
  take w <$> take h (resize H (replicate W v) (resize W v <$> p)) = p.
Proof.
  intros [Hlen Hrows] Hh Hw.
  rewrite resize_ge by (rewrite length_fmap; lia).
  rewrite take_app_length' by (by rewrite length_fmap).
  rewrite <- list_fmap_compose.
  rewrite <- (list_fmap_id p) at 2.
  apply Forall_fmap_ext. eapply Forall_impl; [exact Hrows|].
  intros row Hrow. cbn beta in Hrow. simpl.
  rewrite resize_ge by lia. by rewrite take_app_length'.
Qed.

Lemma copy_into_fits dst i img n :
  t_lead dst = n :: t_lead img -> (i < n)%nat ->
  (t_h img <= t_h dst)%nat -> (t_w img <= t_w dst)%nat ->
  copy_into dst i img
  = Ok {| t_lead := t_lead dst; t_h := t_h dst; t_w := t_w dst;
          t_planes :=
            take (i * prod_list (t_lead img)) (t_planes dst)
            ++ zip_with (overlay_plane (t_h img) (t_w img)) (t_planes img)
                 (sub_planes (prod_list (t_lead img)) i (t_planes dst))
            ++ drop (i * prod_list (t_lead img) + prod_list (t_lead img))
                 (t_planes dst);
          t_device := t_device dst |}.
Proof.
  intros Hlead Hi Hh Hw. unfold copy_into. rewrite Hlead.
  destruct (Nat.ltb_spec i n); [|lia]. cbn [negb].
  rewrite bool_decide_eq_true_2 by done.
  rewrite !Nat.min_l by done. rewrite !Nat.eqb_refl. done.
Qed.

(** C2 away from the defect: on one well-formed image that fits in the
    padded size, the two branches of the builder return the same batch. *)
Lemma paths_agree_when_image_fits t (H W : Z) (pv : A) :
  wf_tensor t ->
  Z.of_nat (t_h t) <= H -> Z.of_nat (t_w t) <= W ->
  single_image_path [t] (image_sizes_of [t]) (H, W) pv
  = general_path [t] (image_sizes_of [t]) (H, W) pv.
Proof.
  intros Hwf Hh Hw. pose proof Hwf as [Hlen Hplanes].
  unfold single_image_path, general_path.
  change (image_sizes_of [t]) with [(Z.of_nat (t_h t), Z.of_nat (t_w t))].
  cbn [fst snd length].
  rewrite pad_wf by (done || lia). cbn [fmap result_fmap mbind result_bind].
  unfold new_full.
  destruct (Z.ltb_spec H 0); [lia|]. destruct (Z.ltb_spec W 0); [lia|].
  cbn [orb mbind result_bind copy_all].
  rewrite (copy_into_fits _ 0 t 1)
    by (cbn [move_device_like tensor_to t_lead t_h t_w]; done || lia).
  cbn [mbind result_bind move_device_like tensor_to unsqueeze0
       t_lead t_h t_w t_planes t_device].
  destruct (create_attention_mask [t] (H, W) 16) as [m|e]; [|done].
  cbn [mbind result_bind]. f_equal. f_equal. f_equal.
  replace (prod_list (1%nat :: t_lead t)) with (prod_list (t_lead t))
    by (unfold prod_list; simpl; lia).
  unfold sub_planes. rewrite Nat.mul_0_l, Nat.add_0_l, take_0, drop_0.
  unfold unsqueeze0. cbn [t_lead t_h t_w t_planes t_device app]. f_equal.
  rewrite take_replicate, Nat.min_id, drop_replicate, Nat.sub_diag.
  cbn [replicate]. rewrite app_nil_r.
  rewrite zip_with_replicate_r_eq by done. unfold flip.
  apply Forall_fmap_ext. eapply Forall_impl; [exact Hplanes|].
  intros p Hp. cbn beta. symmetry. apply overlay_full_plane; [done|lia|lia].
Qed.

(** Both branches refuse a negative padded size. *)
Lemma negative_size_raises t (H W : Z) (pv : A) :
  H < 0 \/ W < 0 ->
  single_image_path [t] (image_sizes_of [t]) (H, W) pv = Raise RuntimeError /\
  general_path [t] (image_sizes_of [t]) (H, W) pv = Raise RuntimeError.
Proof.
  intros Hneg. split.
  - unfold single_image_path.
    change (image_sizes_of [t]) with [(Z.of_nat (t_h t), Z.of_nat (t_w t))].
    cbn [fst snd]. unfold pad.
    destruct (Z.ltb_spec (Z.of_nat (t_w t) + 0 + (W - Z.of_nat (t_w t))) 0),
             (Z.ltb_spec (Z.of_nat (t_h t) + 0 + (H - Z.of_nat (t_h t))) 0);
      try done; lia.
  - unfold general_path, new_full. cbn [fst snd].
    destruct (Z.ltb_spec H 0), (Z.ltb_spec W 0); try done; lia.
Qed.
End PadCopyCrop.

Section RoundTrip.
Context {A : Type}.
Implicit Types (t img dst : Tensor A) (tensors : list (Tensor A)).

Lemma sub_planes_replace {B} (pl new : list B) (P i j : nat) :
  (i * P + P <= length pl)%nat -> length new = P ->
  sub_planes P j (take (i * P) pl ++ new ++ drop (i * P + P) pl)
  = if decide (j = i) then new else sub_planes P j pl.
Proof.
  intros Hlen Hnew. apply list_eq. intros p.
  destruct (decide (p < P)%nat) as [Hp|Hp].
  - rewrite sub_planes_lookup by done.
    assert (Htake : length (take (i * P) pl) = (i * P)%nat)
      by (rewrite length_take; lia).
    destruct (decide (j = i)) as [->|Hne].
    + rewrite lookup_app_r by lia. rewrite Htake.
      replace (i * P + p - i * P)%nat with p by lia.
      by rewrite lookup_app_l by lia.
    + rewrite sub_planes_lookup by done.
      destruct (decide (j < i)%nat).
      * rewrite lookup_app_l by nia. rewrite lookup_take_lt by nia. done.
      * rewrite lookup_app_r by nia. rewrite Htake.
        rewrite lookup_app_r by nia. rewrite lookup_drop, Hnew.
        f_equal. nia.
  - assert (Hnone : forall l : list B, sub_planes P j l !! p = None).
    { intros l. unfold sub_planes. apply lookup_take_ge. lia. }
    rewrite Hnone. destruct (decide (j = i)); [|by rewrite Hnone].
    symmetry. apply lookup_ge_None. lia.
Qed.

Lemma sub_planes_length {B} (pl : list B) (P i : nat) :
  (i * P + P <= length pl)%nat -> length (sub_planes P i pl) = P.
Proof. intros H. unfold sub_planes. rewrite length_take, length_drop. lia. Qed.

(** What the copy loop leaves in the batch: the blocks below [i] are
    untouched, and block [i + k] holds image [k] over what was there. *)
Lemma copy_all_planes (lead : list nat) tensors : forall dst i n data,
  t_lead dst = n :: lead ->
  length (t_planes dst) = (n * prod_list lead)%nat ->
  (i + length tensors <= n)%nat ->
  Forall (fun img => wf_tensor img /\ t_lead img = lead /\
                     (t_h img <= t_h dst)%nat /\ (t_w img <= t_w dst)%nat)
         tensors ->
  copy_all dst i tensors = Ok data ->
  length (t_planes data) = (n * prod_list lead)%nat /\
  (forall j, (j < i)%nat ->
     sub_planes (prod_list lead) j (t_planes data)
     = sub_planes (prod_list lead) j (t_planes dst)) /\
  (forall k img, tensors !! k = Some img ->
     sub_planes (prod_list lead) (i + k) (t_planes data)
     = zip_with (overlay_plane (t_h img) (t_w img)) (t_planes img)
         (sub_planes (prod_list lead) (i + k) (t_planes dst))).
Proof.
  set (P := prod_list lead).
  induction tensors as [|img rest IH]; intros dst i n data Hlead Hlen Hi Hall Hcopy.
  - injection Hcopy as <-. split; [done|]. split; [done|]. intros k img [=].
  - apply Forall_cons in Hall as [(Hwf & Hl & Hh & Hw) Hrest].
    cbn [copy_all] in Hcopy. cbn [length] in Hi.
    rewrite (copy_into_fits dst i img n) in Hcopy by (rewrite ?Hl; done || lia).
    cbn [mbind result_bind] in Hcopy. rewrite Hl in Hcopy. fold P in Hcopy.
    set (new := zip_with (overlay_plane (t_h img) (t_w img)) (t_planes img)
                  (sub_planes P i (t_planes dst))) in *.
    assert (HiP : (i * P + P <= length (t_planes dst))%nat) by (rewrite Hlen; nia).
    assert (Hnew : length new = P).
    { assert (Himg : length (t_planes img) = P).
      { destruct Hwf as [Hn _]. by rewrite Hn, Hl. }
      subst new. rewrite length_zip_with_l_eq; [done|].
      by rewrite Himg, sub_planes_length. }
    set (dst1 := {| t_lead := t_lead dst |}) in Hcopy.
    assert (Hsub : forall j, sub_planes P j (t_planes dst1)
              = if decide (j = i) then new else sub_planes P j (t_planes dst)).
    { intros j. subst dst1. cbn [t_planes]. by apply sub_planes_replace. }
    destruct (IH dst1 (S i) n data) as (Hlen' & Hbelow & Hat); [done| |lia| |done|].
    { subst dst1. cbn [t_planes].
      rewrite !length_app, length_take, length_drop, Hnew. nia. }
    { eapply Forall_impl; [exact Hrest|]. by intros ? (? & ? & ? & ?). }
    split; [done|]. split.
    + intros j Hj. rewrite Hbelow by lia. rewrite Hsub.
      destruct (decide (j = i)); [lia|done].
    + intros [|k] img' Himg'.
      * injection Himg' as <-. rewrite Nat.add_0_r, Hbelow by lia.
        rewrite Hsub. by rewrite decide_True.
      * replace (i + S k)%nat with (S i + k)%nat by lia.
        rewrite (Hat k img' Himg'), Hsub.
        destruct (decide ((S i + k)%nat = i)); [lia|done].
Qed.

Lemma sub_planes_replicate {B} (x : B) (P n i : nat) :
  (i < n)%nat -> sub_planes P i (replicate (n * P) x) = replicate P x.
Proof.
  intros Hi. unfold sub_planes.
  rewrite drop_replicate, take_replicate. f_equal. nia.
Qed.
End RoundTrip.

Section RoundTripBuilder.
Context {A : Type}.
Implicit Types (t img dst : Tensor A) (tensors : list (Tensor A)).

Lemma check_leading_Ok_inv t0 tensors :
  check_leading t0 tensors = Ok () ->
  Forall (fun t => t_lead t = t_lead t0) tensors.
Proof.
  induction tensors as [|t l IH]; simpl; intros H; [constructor|].
  destruct (decide (t_lead t = t_lead t0)) as [Heq|Hne].
  - rewrite bool_decide_eq_true_2 in H by done. constructor; auto.
  - by rewrite bool_decide_eq_false_2 in H.
Qed.

Lemma general_path_roundtrip tensors (H W : Z) (pv : A) b t0 (i : nat) img :
  general_path tensors (image_sizes_of tensors) (H, W) pv = Ok b ->
  head tensors = Some t0 ->
  Forall (fun t => t_lead t = t_lead t0) tensors ->
  Forall wf_tensor tensors ->
  Forall (fun t => Z.of_nat (t_h t) <= H /\ Z.of_nat (t_w t) <= W) tensors ->
  tensors !! i = Some img ->
  exists t,
    getitem b (Z.of_nat i) = Ok t /\
    shape t = shape img /\ t_planes t = t_planes img.
Proof.
  intros Hb Hhead Hlead Hwf Hfit Himg.
  destruct tensors as [|t0' rest]; [done|]. injection Hhead as ->.
  apply general_path_Ok in Hb as (full & data & m & Hfull & Hcopy & _ & ->).
  cbn [fst snd] in Hfull. unfold new_full in Hfull.
  destruct (Z.ltb_spec H 0); [discriminate|].
  destruct (Z.ltb_spec W 0); [discriminate|].
  cbn [orb] in Hfull. injection Hfull as <-.
  set (P := prod_list (t_lead t0)).
  set (fullp := replicate (Z.to_nat H) (replicate (Z.to_nat W) pv)) in *.
  set (ts := t0 :: rest) in *.
  change (prod_list (t_lead t0) + length rest * prod_list (t_lead t0))%nat
    with (length ts * P)%nat in Hcopy.
  change (S (length rest)) with (length ts) in Hcopy.
  pose proof (copy_all_Ok _ _ _ _ Hcopy) as (Hdl & Hdh & Hdw & _).
  cbn [move_device_like tensor_to t_lead t_h t_w] in Hdl, Hdh, Hdw.
  match type of Hcopy with
  | copy_all ?dst _ _ = _ =>
      destruct (copy_all_planes (t_lead t0) ts dst 0 (length ts) data)
        as (_ & _ & Hat); [| | | |exact Hcopy|]
  end.
  { done. }
  { cbn [move_device_like tensor_to t_planes]. by rewrite length_replicate. }
  { lia. }
  { cbn [move_device_like tensor_to t_h t_w].
    apply Forall_forall. intros t Ht.
    rewrite Forall_forall in Hlead, Hwf, Hfit.
    specialize (Hlead t Ht). specialize (Hwf t Ht). specialize (Hfit t Ht).
    split; [done|]. split; [done|]. lia. }
  specialize (Hat i img Himg).
  cbn [move_device_like tensor_to t_planes Nat.add] in Hat. fold P in Hat.
  pose proof (lookup_lt_Some _ _ _ Himg) as Hi.
  rewrite sub_planes_replicate in Hat by done.
  rewrite Forall_forall in Hlead, Hwf, Hfit.
  assert (Hin : img ∈ ts) by (by eapply list_elem_of_lookup_2).
  destruct (Hwf img Hin) as [Hlenp Hplanes].
  destruct (Hfit img Hin) as [Hh Hw].
  pose proof (Hlead img Hin) as Hl.
  rewrite zip_with_replicate_r_eq in Hat by (by rewrite Hlenp, Hl).
  unfold getitem, list_getitem. cbn [image_sizes tensor].
  rewrite image_sizes_of_length, py_index_nonneg, Nat2Z.id by lia.
  cbn [mbind result_bind]. unfold image_sizes_of.
  rewrite list_lookup_fmap, Himg. cbn [fmap option_fmap option_map fst snd].
  cbn [mbind result_bind fst snd].
  unfold index_crop. rewrite Hdl, py_index_nonneg, Nat2Z.id by lia.
  cbn [mbind result_bind]. fold P. rewrite Hat.
  rewrite !py_slice_to_nonneg, !Nat2Z.id, Hdh, Hdw by lia.
  rewrite !Nat.min_l by lia.
  eexists. split; [reflexivity|]. cbn [t_planes]. split.
  - unfold shape. cbn [t_lead t_h t_w]. by rewrite Hl.
  - rewrite <- list_fmap_compose. rewrite <- (list_fmap_id (t_planes img)) at 2.
    apply Forall_fmap_ext. eapply Forall_impl; [exact Hplanes|].
    intros p Hp. unfold compose, flip, fullp. cbn beta.
    rewrite overlay_full_plane by (done || lia).
    apply crop_padded_plane; [done|lia|lia].
Qed.

(** C3 away from the defect: when every image is well formed and fits in
    the padded size, indexing the built batch at [i] gives back the shape
    and the elements of image [i]. *)
Lemma getitem_roundtrip_when_images_fit tensors sd (pv : A) pc b (i : nat) img :
  from_tensors tensors sd pv pc = Ok b ->
  Forall wf_tensor tensors ->
  (let max_size := target_size (image_sizes_of tensors) sd pc in
   Forall (fun t => Z.of_nat (t_h t) <= max_size.1 /\
                    Z.of_nat (t_w t) <= max_size.2) tensors) ->
  tensors !! i = Some img ->
  exists t,
    getitem b (Z.of_nat i) = Ok t /\
    shape t = shape img /\ t_planes t = t_planes img.
Proof.
  intros Hb Hwf Hfit Himg. cbn zeta in Hfit.
  pose proof (from_tensors_Ok _ _ _ _ _ Hb) as (t0 & rest & -> & Hcheck & _).
  apply check_leading_Ok_inv in Hcheck.
  apply from_tensors_Ok_path in Hb. cbn zeta in Hb.
  destruct (target_size (image_sizes_of (t0 :: rest)) sd pc) as [H W] eqn:Hts.
  cbn [fst snd] in Hfit.
  assert (Hgen : general_path (t0 :: rest) (image_sizes_of (t0 :: rest)) (H, W) pv
                 = Ok b).
  { destruct (Nat.eqb_spec (length (t0 :: rest)) 1) as [Hone|]; [|done].
    destruct rest; [|done].
    rewrite <- paths_agree_when_image_fits; [done| |  |].
    - by inversion Hwf.
    - inversion Hfit as [|? ? [? ?] ?]; by subst.
    - inversion Hfit as [|? ? [? ?] ?]; by subst. }
  by eapply general_path_roundtrip.
Qed.
End RoundTripBuilder.

(** ** The single-image branch under a square size below the image

    With one image and a square size smaller than the image, the padding
    amounts of the single-image branch are negative and [F.pad] crops. *)

(** C2, at a failing input.  For one 20 x 20 image and a square size of
    16 the padded size is (16, 16); the single-image branch returns a
    batch whose data is 1 x 16 x 16, and the general branch raises on the
    same input. *)
Theorem single_path_crops_where_general_path_raises :
  let t := const_image [] 20 20 7 in
  let max_size := target_size (image_sizes_of [t]) 0 (square_constraint 16) in
  max_size = (16, 16) /\
  (shape ∘ tensor) <$> single_image_path [t] (image_sizes_of [t]) max_size 0
    = Ok [1; 16; 16]%nat /\
  general_path [t] (image_sizes_of [t]) max_size 0 = Raise RuntimeError.
Proof.
  cbn zeta. split; [reflexivity|].
  split; vm_compute; reflexivity.
Qed.

(** C3, at a failing input.  For one 20 x 20 image and a square size of
    16 the builder returns a batch that records the size (20, 20), and
    indexing it at 0 gives a 16 x 16 array, not the 20 x 20 image. *)
Theorem getitem_of_cropped_image :
  let t := const_image [] 20 20 7 in
  shape t = [20; 20]%nat /\
  exists b,
    from_tensors [t] 0 0 (square_constraint 16) = Ok b /\
    image_sizes b = [(20, 20)] /\
    shape <$> getitem b 0 = Ok [16; 16]%nat.
Proof.
  cbn zeta. split; [reflexivity|].
  eexists. split; [vm_compute; reflexivity|].
  split; [reflexivity | vm_compute; reflexivity].
Qed.

(** * Further properties of the code *)

(** ** What a built batch records *)

Lemma from_tensors_branch {A} (tensors : list (Tensor A)) sd (pv : A) pc b :
  from_tensors tensors sd pv pc = Ok b ->
  exists t0 rest,
    tensors = t0 :: rest /\
    Forall (fun t => t_lead t = t_lead t0) tensors /\
    let sizes := image_sizes_of tensors in
    let max_size := target_size sizes sd pc in
    (length tensors = 1%nat /\
     single_image_path tensors sizes max_size pv = Ok b) \/
    (length tensors <> 1%nat /\
     general_path tensors sizes max_size pv = Ok b).
Proof.
  intros Hb.
  pose proof (from_tensors_Ok _ _ _ _ _ Hb) as (t0 & rest & -> & Hcheck & _).
  exists t0, rest. split; [done|].
  split; [by apply check_leading_Ok_inv|].
  apply from_tensors_Ok_path in Hb. cbn zeta in Hb. cbn zeta.
  destruct (Nat.eqb_spec (length (t0 :: rest)) 1); [by left | by right].
Qed.

(** The three components of a built batch agree on the number of images,
    and the recorded sizes are the inputs' heights and widths, in order. *)
Theorem built_batch_counts_agree {A} (tensors : list (Tensor A))
    (size_divisibility : Z) (pad_value : A)
    (padding_constraints : option (gmap string Z)) (b : ImageList A) :
  from_tensors tensors size_divisibility pad_value padding_constraints = Ok b ->
  len b = length tensors /\
  head (shape (tensor b)) = Some (length tensors) /\
  head (shape (padding_mask b)) = Some (length tensors) /\
  image_sizes b
    = (fun t => (Z.of_nat (t_h t), Z.of_nat (t_w t))) <$> tensors.
Proof.
  intros Hb.
  apply from_tensors_Ok in Hb
    as (t0 & rest & -> & _ & Hlead & _ & _ & Hsizes & Hm).
  cbn zeta in Hm.
  apply create_attention_mask_Ok in Hm as (rows & _ & Hml & Hmh & _).
  unfold len, shape. rewrite Hsizes, image_sizes_of_length, Hlead, Hml, Hmh.
  done.
Qed.

Lemma built_batch_counts_agree_witness :
  exists b,
    from_tensors two_images 0 0 None = Ok b /\
    len b = 2%nat /\ image_sizes b = [(40, 20); (16, 33)].
Proof.
  destruct (from_tensors two_images 0 0 None) as [b|e] eqn:Hb;
    [|vm_compute in Hb; discriminate].
  exists b. split; [done|].
  destruct (built_batch_counts_agree two_images 0 0 None b Hb)
    as (Hlen & _ & _ & Hsizes).
  split; [exact Hlen | exact Hsizes].
Defined.

(** A batch is built only from images that are all on one device, that of
    the first image, and its data and its mask are on that device,
    whichever branch built them. *)
Theorem built_batch_on_first_device {A} (tensors : list (Tensor A))
    (size_divisibility : Z) (pad_value : A)
    (padding_constraints : option (gmap string Z)) (b : ImageList A) :
  from_tensors tensors size_divisibility pad_value padding_constraints = Ok b ->
  exists t0,
    head tensors = Some t0 /\
    Forall (fun t => t_device t = t_device t0) tensors /\
    get_device b = t_device t0 /\
    t_device (padding_mask b) = t_device t0.
Proof.
  intros Hb.
  apply from_tensors_branch in Hb as (t0 & rest & -> & _ & Hb). cbn zeta in Hb.
  exists t0. split; [done|].
  assert (Hmask : forall ms m,
    create_attention_mask (t0 :: rest) ms 16 = Ok m ->
    Forall (fun t => t_device t = t_device t0) (t0 :: rest) /\
    t_device m = t_device t0).
  { intros ms m Hm. apply create_attention_mask_Ok_device in Hm.
    pose proof (Forall_inv Hm) as Hd0. cbn beta in Hd0.
    split; [|done]. eapply Forall_impl; [exact Hm|].
    intros t Ht. cbn beta in Ht. congruence. }
  unfold get_device. destruct Hb as [[_ Hb]|[_ Hb]].
  - change (image_sizes_of (t0 :: rest))
      with ((Z.of_nat (t_h t0), Z.of_nat (t_w t0)) :: image_sizes_of rest) in Hb.
    apply single_image_path_Ok in Hb as (padded & m & Hp & Hm & ->).
    apply pad_Ok in Hp as (_ & _ & _ & Hd).
    destruct (Hmask _ _ Hm) as [Hall Hdm]. done.
  - apply general_path_Ok in Hb as (full & data & m & Hf & Hc & Hm & ->).
    apply copy_all_Ok in Hc as (_ & _ & _ & Hd).
    destruct (Hmask _ _ Hm) as [Hall Hdm]. done.
Qed.

Lemma built_batch_on_first_device_witness :
  exists b,
    from_tensors [mkTensor [] 16 16 [replicate 16 (replicate 16 7)] (cuda 1);
                  mkTensor [] 16 20 [replicate 16 (replicate 20 7)] (cuda 1)]
      0 0 None = Ok b /\
    get_device b = cuda 1 /\
    t_device (padding_mask b) = cuda 1.
Proof.
  destruct (from_tensors _ 0 0 None) as [b|e] eqn:Hb;
    [|vm_compute in Hb; discriminate].
  exists b. split; [done|].
  destruct (built_batch_on_first_device _ _ _ _ b Hb)
    as (t0 & Hhead & _ & Hd & Hm).
  injection Hhead as <-. split; [exact Hd | exact Hm].
Defined.

(** ** The padded size and the size divisibility *)

(** Whenever the size divisibility in force is above 1, a padded
    dimension of a built batch that leaves room for one more stride below
    2^63 is a multiple of it, with or without a square size: the int64
    rounding did not wrap. *)
Theorem padded_size_divisible {A} (tensors : list (Tensor A))
    (size_divisibility : Z) (pad_value : A)
    (padding_constraints : option (gmap string Z)) (b : ImageList A) :
  let d := effective_divisibility size_divisibility padding_constraints in
  from_tensors tensors size_divisibility pad_value padding_constraints = Ok b ->
  1 < d ->
  (Z.of_nat (t_h (tensor b)) + d <= 2 ^ 63 -> (d | Z.of_nat (t_h (tensor b)))) /\
  (Z.of_nat (t_w (tensor b)) + d <= 2 ^ 63 -> (d | Z.of_nat (t_w (tensor b)))).
Proof.
  intros d Hb Hd. subst d.
  pose proof (from_tensors_Ok_size _ _ _ _ _ Hb) as Hms.
  apply from_tensors_Ok in Hb as (t0 & rest & -> & _ & _ & Hh & Hw & _).
  cbn zeta in Hh, Hw. rewrite Hh, Hw.
  apply compute_max_size_Ok in Hms as (Hrange & Hsq & Hms). cbn zeta in Hms, Hsq.
  destruct (max_hw_in_range (t0 :: rest)) as [HmH HmW]; [done..|].
  destruct (Z.ltb_spec 1 (effective_divisibility size_divisibility
                            padding_constraints)); [|lia].
  destruct Hms as [Hdmax Hms]. rewrite Hms. cbn [fst snd].
  destruct (Z.ltb_spec 0 (square_size_of padding_constraints)) as [Hpos|Hpos];
    cbn [fst snd]; rewrite Hms in Hh, Hw; cbn [fst snd] in Hh, Hw;
    (split; intros Hroom; apply round_up_int64_divide; lia).
Qed.

Lemma padded_size_divisible_witness :
  exists b,
    from_tensors [const_image [] 20 10 7] 0 0
      (Some {[ "square_size" := 30; "size_divisibility" := 16 ]}) = Ok b /\
    (16 | Z.of_nat (t_h (tensor b))).
Proof.
  destruct (from_tensors _ 0 0 _) as [b|e] eqn:Hb;
    [|vm_compute in Hb; discriminate].
  exists b. split; [done|].
  destruct (padded_size_divisible _ _ _ _ b Hb) as [Hh _]; [reflexivity|].
  apply Hh. vm_compute in Hb. injection Hb as <-. vm_compute. discriminate.
Defined.

(** ** Which assertion fires *)

(** The shape in the assertion error is that of the first image, in list
    order, whose leading dimensions differ from the first image's; the
    check comes before any size is computed, so it does not depend on the
    rest of the configuration. *)
Theorem first_mismatch_is_reported {A} (t0 t : Tensor A)
    (before after : list (Tensor A)) (size_divisibility : Z) (pad_value : A)
    (padding_constraints : option (gmap string Z)) :
  Forall (fun t' => t_lead t' = t_lead t0) before ->
  t_lead t <> t_lead t0 ->
  from_tensors (t0 :: before ++ t :: after) size_divisibility pad_value
    padding_constraints
  = Raise (AssertionError [shape t]).
Proof.
  intros Hbefore Hne. unfold from_tensors.
  assert (Hcheck : check_leading t0 (t0 :: before ++ t :: after)
                   = Raise (AssertionError [shape t])).
  { cbn [check_leading]. rewrite bool_decide_eq_true_2 by done.
    induction Hbefore as [|t' l Ht' _ IH]; cbn [app check_leading].
    - by rewrite bool_decide_eq_false_2.
    - by rewrite bool_decide_eq_true_2. }
  by rewrite Hcheck.
Qed.

Lemma first_mismatch_is_reported_witness :
  from_tensors [const_image [3%nat] 16 16 7; const_image [3%nat] 20 20 7;
                const_image [1%nat] 18 17 7; const_image [] 5 5 7] 0 0 None
  = Raise (AssertionError [[1; 18; 17]%nat]).
Proof.
  apply (first_mismatch_is_reported (const_image [3%nat] 16 16 7)
           (const_image [1%nat] 18 17 7) [const_image [3%nat] 20 20 7]
           [const_image [] 5 5 7]).
  - by repeat constructor.
  - discriminate.
Defined.

(** ** Device transfer and the accessors *)

(** Moving a batch keeps its length, makes [device] report the target,
    and commutes with indexing: an item of the moved batch is the moved
    item of the batch, and the same indices fail. *)
Theorem to_commutes_with_getitem {A} (il : ImageList A) (d : device) (idx : Z) :
  len (to il d) = len il /\
  get_device (to il d) = d /\
  getitem (to il d) idx = (fun t => tensor_to t d) <$> getitem il idx.
Proof.
  split; [done|]. split; [done|].
  unfold getitem, to. cbn [image_sizes tensor].
  destruct (list_getitem (image_sizes il) idx) as [size|e]; [|done].
  cbn [mbind result_bind]. unfold index_crop, tensor_to. cbn [t_lead t_h t_w].
  destruct (t_lead (tensor il)) as [|n lead]; [done|].
  destruct (py_index idx n) as [i|e]; done.
Qed.

(** ** More on the attention mask *)

Lemma Forall_flat_grid {B} (P : B -> Prop) (f : nat -> nat -> B) (oh ow : nat) :
  (forall r c, (r < oh)%nat -> (c < ow)%nat -> P (f r c)) ->
  Forall P (concat ((fun r => f r <$> seq 0 ow) <$> seq 0 oh)).
Proof.
  intros Hf. apply Forall_concat, Forall_fmap, Forall_seq.
  intros r Hr. cbn beta. apply Forall_fmap, Forall_seq.
  intros c Hc. apply Hf; lia.
Qed.

(** Every entry of a mask is 0 or -1e6: no other value is produced. *)
Theorem mask_entries_zero_or_large_negative {A} (tensors : list (Tensor A))
    (max_size : Z * Z) (patch_size : Z) (m : Tensor Q) :
  create_attention_mask tensors max_size patch_size = Ok m ->
  Forall (Forall (Forall (fun v => v = 0%Q \/ v = large_neg_val)))
         (t_planes m).
Proof.
  intros Hm. destruct max_size as [H W].
  apply create_attention_mask_Ok in Hm as (rows & Hrows & _ & _ & -> & _).
  constructor; [|constructor].
  apply Forall_forall. intros row Hrow.
  apply list_elem_of_lookup in Hrow as [i Hrow].
  destruct (Forall2_lookup_r _ _ _ _ _ Hrows Hrow) as (img & _ & H1d).
  apply mask_row_Ok in H1d as (_ & _ & _ & ->).
  constructor; [by left|].
  apply Forall_fmap, Forall_forall. intros v _. unfold compose.
  destruct (Qgtb v 0); [by left | by right].
Qed.

Lemma mask_entries_zero_or_large_negative_witness :
  exists m,
    create_attention_mask two_images (40, 33) 16 = Ok m /\
    Forall (Forall (Forall (fun v => v = 0%Q \/ v = large_neg_val)))
           (t_planes m).
Proof.
  destruct (create_attention_mask two_images (40, 33) 16) as [m|e] eqn:Hm;
    [|vm_compute in Hm; discriminate].
  exists m. split; [done|].
  exact (mask_entries_zero_or_large_negative two_images (40, 33) 16 m Hm).
Defined.


(** An image that covers the whole padded size has nothing masked: its
    row of the mask is 0 everywhere. *)
Theorem full_size_image_is_unmasked {A} (tensors : list (Tensor A))
    (H W patch_size : Z) (m : Tensor Q) (i : nat) (img : Tensor A) :
  create_attention_mask tensors (H, W) patch_size = Ok m ->
  tensors !! i = Some img ->
  H <= Z.of_nat (t_h img) -> W <= Z.of_nat (t_w img) ->
  exists rows row,
    t_planes m = [rows] /\ rows !! i = Some row /\
    Forall (fun v => v = 0%Q) row.
Proof.
  intros Hm Himg HH HW.
  apply create_attention_mask_Ok in Hm as (rows & Hrows & _ & _ & Hplanes & _).
  destruct (Forall2_lookup_l _ _ _ _ _ Hrows Himg) as (row & Hrow & H1d).
  apply mask_row_Ok in H1d as (Hps & HpsH & HpsW & ->).
  eexists rows, _. split; [done|]. split; [exact Hrow|].
  constructor; [done|].
  apply Forall_fmap, Forall_flat_grid. intros r c Hr Hc. cbn beta.
  set (k := Z.to_nat patch_size).
  assert (Hk : (0 < k)%nat) by (subst k; lia).
  assert (HdivH : (r < Z.to_nat H / k)%nat).
  { subst k. apply Nat2Z.inj_lt.
    rewrite Nat2Z.inj_div, !Z2Nat.id by lia.
    pose proof (Z.div_pos H patch_size). lia. }
  assert (HdivW : (c < Z.to_nat W / k)%nat).
  { subst k. apply Nat2Z.inj_lt.
    rewrite Nat2Z.inj_div, !Z2Nat.id by lia.
    pose proof (Z.div_pos W patch_size). lia. }
  pose proof (validity_block_mean_pos (t_h img) (t_w img)
                (Z.to_nat H) (Z.to_nat W) k r c Hk HdivH HdivW) as Hpos.
  assert (Hrk : (r * k + k <= Z.to_nat H)%nat).
  { pose proof (Nat.Div0.mul_div_le (Z.to_nat H) k). nia. }
  assert (Hck : (c * k + k <= Z.to_nat W)%nat).
  { pose proof (Nat.Div0.mul_div_le (Z.to_nat W) k). nia. }
  unfold compose. cbn beta.
  rewrite (proj2 (Qgtb_true _ _)); [done|].
  apply Hpos. lia.
Qed.

Lemma full_size_image_is_unmasked_witness :
  exists m rows row,
    create_attention_mask two_images (33, 16) 16 = Ok m /\
    t_planes m = [rows] /\ rows !! 0%nat = Some row /\
    Forall (fun v => v = 0%Q) row.
Proof.
  destruct (create_attention_mask two_images (33, 16) 16) as [m|e] eqn:Hm;
    [|vm_compute in Hm; discriminate].
  destruct (full_size_image_is_unmasked two_images 33 16 16 m 0
              (const_image [] 40 20 7) Hm eq_refl)
    as (rows & row & Hplanes & Hrow & Hall); [simpl; lia | simpl; lia |].
  by exists m, rows, row.
Defined.

(** ** What the copy loop accepts *)

Section BuiltData.
Context {A : Type}.
Implicit Types (t img dst : Tensor A) (tensors : list (Tensor A)).

Lemma copy_into_Ok_fits dst i img dst' :
  copy_into dst i img = Ok dst' ->
  ((t_h img <= t_h dst)%nat \/ t_h dst = 0%nat) /\
  ((t_w img <= t_w dst)%nat \/ t_w dst = 0%nat).
Proof.
  unfold copy_into. destruct (t_lead dst) as [|n lead]; [discriminate|].
  destruct (negb _); [discriminate|].
  destruct (bool_decide _); [|discriminate]. cbn [andb].
  destruct (_ || _) eqn:Hh; [|discriminate]. cbn [andb].
  destruct (_ || _) eqn:Hw in |- *; [|discriminate]. intros _.
  apply orb_true_iff in Hh, Hw.
  rewrite andb_true_iff, !Nat.eqb_eq in Hh, Hw. lia.
Qed.

Lemma copy_all_Ok_fits tensors : forall dst i data,
  copy_all dst i tensors = Ok data ->
  Forall (fun img =>
            ((t_h img <= t_h dst)%nat \/ t_h dst = 0%nat) /\
            ((t_w img <= t_w dst)%nat \/ t_w dst = 0%nat)) tensors.
Proof.
  induction tensors as [|img rest IH]; intros dst i data Hcopy; [constructor|].
  cbn [copy_all] in Hcopy. inv_bind Hcopy.
  pose proof (copy_into_Ok_fits _ _ _ _ E) as Hfit.
  apply copy_into_Ok in E as (_ & Hh & Hw & _).
  constructor; [done|]. rewrite <- Hh, <- Hw. by eapply IH.
Qed.

(** A batch is only built on a padded size of at least 16 x 16. *)
Lemma built_padded_size_ge_16 tensors sd (pv : A) pc b :
  from_tensors tensors sd pv pc = Ok b ->
  16 <= (target_size (image_sizes_of tensors) sd pc).1 /\
  16 <= (target_size (image_sizes_of tensors) sd pc).2.
Proof.
  intros Hb.
  apply from_tensors_Ok in Hb as (t0 & rest & -> & _ & _ & _ & _ & _ & Hm).
  cbn zeta in Hm.
  destruct (target_size _ sd pc) as [H W].
  apply create_attention_mask_Ok in Hm as (rows & Hrows & _).
  inversion Hrows as [|? row ? ? H1d _]; subst.
  by apply mask_row_Ok in H1d as (_ & ? & ? & _).
Qed.

(** Apart from one image under a square size, every image of a built
    batch fits in the padded size. *)
Lemma built_images_fit tensors sd (pv : A) pc b :
  from_tensors tensors sd pv pc = Ok b ->
  length tensors <> 1%nat \/ square_size_of pc <= 0 ->
  Forall (fun t =>
            Z.of_nat (t_h t) <= (target_size (image_sizes_of tensors) sd pc).1 /\
            Z.of_nat (t_w t) <= (target_size (image_sizes_of tensors) sd pc).2)
         tensors.
Proof.
  intros Hb Hcase.
  pose proof (built_padded_size_ge_16 _ _ _ _ _ Hb) as [H16 W16].
  destruct Hcase as [Hlen|Hsq].
  2: { apply (images_fit_without_square tensors sd pc);
         [done | by eapply from_tensors_Ok_size | lia | lia]. }
  apply from_tensors_branch in Hb as (t0 & rest & -> & _ & Hb). cbn zeta in Hb.
  destruct Hb as [[? _]|[_ Hb]]; [done|].
  apply general_path_Ok in Hb as (full & data & m & Hf & Hc & _ & _).
  apply new_full_Ok in Hf as (_ & Hh & Hw & _).
  apply copy_all_Ok_fits in Hc.
  cbn [move_device_like tensor_to t_h t_w] in Hc.
  eapply Forall_impl; [exact Hc|]. intros t Ht. cbn beta in Ht. lia.
Qed.


Lemma built_by_general_path tensors sd (pv : A) pc b :
  from_tensors tensors sd pv pc = Ok b ->
  Forall wf_tensor tensors ->
  Forall (fun t =>
            Z.of_nat (t_h t) <= (target_size (image_sizes_of tensors) sd pc).1 /\
            Z.of_nat (t_w t) <= (target_size (image_sizes_of tensors) sd pc).2)
         tensors ->
  general_path tensors (image_sizes_of tensors)
    (target_size (image_sizes_of tensors) sd pc) pv = Ok b.
Proof.
  intros Hb Hwf Hfit.
  apply from_tensors_branch in Hb as (t0 & rest & -> & _ & Hb). cbn zeta in Hb.
  destruct Hb as [[Hone Hb]|[_ Hb]]; [|done].
  destruct rest; [|done].
  destruct (target_size (image_sizes_of [t0]) sd pc) as [H W].
  apply Forall_cons in Hfit as [[Hh Hw] _]. apply Forall_cons in Hwf as [Hwf _].
  by rewrite <- paths_agree_when_image_fits.
Qed.

Lemma wf_padded_plane (H W : nat) (v : A) (p : list (list A)) :
  wf_plane H W (resize H (replicate W v) (resize W v <$> p)).
Proof.
  split; [apply length_resize|].
  rewrite resize_spec. apply Forall_app. split.
  - apply Forall_take, Forall_fmap, Forall_forall. intros row _.
    apply length_resize.
  - apply Forall_replicate, length_replicate.
Qed.

(** The block of image [i] in the data the general branch builds: each
    plane of the image, padded on the bottom and on the right. *)
Lemma general_path_blocks tensors (H W : Z) (pv : A) b t0 (i : nat) img :
  general_path tensors (image_sizes_of tensors) (H, W) pv = Ok b ->
  head tensors = Some t0 ->
  Forall (fun t => t_lead t = t_lead t0) tensors ->
  Forall wf_tensor tensors ->
  Forall (fun t => Z.of_nat (t_h t) <= H /\ Z.of_nat (t_w t) <= W) tensors ->
  tensors !! i = Some img ->
  length (t_planes (tensor b)) = (length tensors * prod_list (t_lead t0))%nat /\
  sub_planes (prod_list (t_lead t0)) i (t_planes (tensor b))
  = (fun p => resize (Z.to_nat H) (replicate (Z.to_nat W) pv)
                (resize (Z.to_nat W) pv <$> p)) <$> t_planes img.
Proof.
  intros Hb Hhead Hlead Hwf Hfit Himg.
  destruct tensors as [|t0' rest]; [done|]. injection Hhead as ->.
  apply general_path_Ok in Hb as (full & data & m & Hfull & Hcopy & _ & ->).
  cbn [fst snd] in Hfull. unfold new_full in Hfull.
  destruct (Z.ltb_spec H 0); [discriminate|].
  destruct (Z.ltb_spec W 0); [discriminate|].
  cbn [orb] in Hfull. injection Hfull as <-.
  set (P := prod_list (t_lead t0)).
  set (ts := t0 :: rest) in *.
  change (prod_list (t_lead t0) + length rest * prod_list (t_lead t0))%nat
    with (length ts * P)%nat in Hcopy.
  change (S (length rest)) with (length ts) in Hcopy.
  match type of Hcopy with
  | copy_all ?dst _ _ = _ =>
      destruct (copy_all_planes (t_lead t0) ts dst 0 (length ts) data)
        as (Hlen & _ & Hat); [| | | |exact Hcopy|]
  end.
  { done. }
  { cbn [move_device_like tensor_to t_planes]. by rewrite length_replicate. }
  { lia. }
  { cbn [move_device_like tensor_to t_h t_w].
    apply Forall_forall. intros t Ht.
    rewrite Forall_forall in Hlead, Hwf, Hfit.
    specialize (Hlead t Ht). specialize (Hwf t Ht). specialize (Hfit t Ht).
    split; [done|]. split; [done|]. lia. }
  cbn [tensor]. split; [done|].
  specialize (Hat i img Himg).
  cbn [move_device_like tensor_to t_planes Nat.add] in Hat. fold P in Hat.
  pose proof (lookup_lt_Some _ _ _ Himg) as Hi.
  rewrite sub_planes_replicate in Hat by done.
  rewrite Forall_forall in Hlead, Hwf, Hfit.
  assert (Hin : img ∈ ts) by (by eapply list_elem_of_lookup_2).
  destruct (Hwf img Hin) as [Hlenp Hplanes].
  destruct (Hfit img Hin) as [Hh Hw].
  pose proof (Hlead img Hin) as Hl.
  rewrite zip_with_replicate_r_eq in Hat by (by rewrite Hlenp, Hl).
  rewrite Hat. apply Forall_fmap_ext.
  eapply Forall_impl; [exact Hplanes|]. intros p Hp. unfold flip. cbn beta.
  apply overlay_full_plane; [done|lia|lia].
Qed.
End BuiltData.

(** ** Sizes, elements and well-formedness of a built batch *)

(** Apart from one image under a square size, every recorded size of a
    built batch is within the padded size. *)
Theorem recorded_sizes_within_padded_size {A} (tensors : list (Tensor A))
    (size_divisibility : Z) (pad_value : A)
    (padding_constraints : option (gmap string Z)) (b : ImageList A) :
  from_tensors tensors size_divisibility pad_value padding_constraints = Ok b ->
  length tensors <> 1%nat \/ square_size_of padding_constraints <= 0 ->
  Forall (fun size : Z * Z =>
            size.1 <= Z.of_nat (t_h (tensor b)) /\
            size.2 <= Z.of_nat (t_w (tensor b)))
         (image_sizes b).
Proof.
  intros Hb Hcase.
  pose proof (built_images_fit _ _ _ _ _ Hb Hcase) as Hfit.
  apply from_tensors_Ok in Hb as (t0 & rest & -> & _ & _ & Hh & Hw & -> & _).
  cbn zeta in Hh, Hw. rewrite Hh, Hw. unfold image_sizes_of.
  by apply Forall_fmap.
Qed.

Lemma recorded_sizes_within_padded_size_witness :
  exists b,
    from_tensors two_images 0 0 (square_constraint 48) = Ok b /\
    Forall (fun size : Z * Z =>
              size.1 <= Z.of_nat (t_h (tensor b)) /\
              size.2 <= Z.of_nat (t_w (tensor b)))
           (image_sizes b).
Proof.
  destruct (from_tensors two_images 0 0 (square_constraint 48)) as [b|e] eqn:Hb;
    [|vm_compute in Hb; discriminate].
  exists b. split; [done|].
  apply (recorded_sizes_within_padded_size two_images 0 0
           (square_constraint 48) b Hb).
  left. discriminate.
Defined.


(** With no square size in force, the single-image branch is the general
    branch: the builder on one well-formed image returns what the general
    branch returns on it. *)
Theorem single_image_is_general_without_square {A} (t : Tensor A)
    (size_divisibility : Z) (pad_value : A)
    (padding_constraints : option (gmap string Z)) :
  wf_tensor t ->
  square_size_of padding_constraints <= 0 ->
  from_tensors [t] size_divisibility pad_value padding_constraints
  = general_path [t] (image_sizes_of [t])
      (target_size (image_sizes_of [t]) size_divisibility padding_constraints)
      pad_value.
Proof.
  intros Hwf Hsq.
  rewrite from_tensors_cons, check_leading_Ok by (by repeat constructor).
  cbn [mbind result_bind length Nat.eqb]. unfold target_size.
  destruct (compute_max_size (image_sizes_of [t]) size_divisibility
              padding_constraints) as [[H W]|e] eqn:Hms;
    cbn [mbind result_bind].
  - destruct (Z.le_gt_cases 0 H) as [HH|HH];
      [destruct (Z.le_gt_cases 0 W) as [HW|HW]|].
    + pose proof (images_fit_without_square [t] size_divisibility
                    padding_constraints (H, W) Hsq Hms HH HW) as Hfit.
      apply Forall_cons in Hfit as [[Hh Hw] _].
      by apply paths_agree_when_image_fits.
    + destruct (negative_size_raises t H W pad_value) as [-> ->]; [lia|done].
    + destruct (negative_size_raises t H W pad_value) as [-> ->]; [lia|done].
  - apply compute_max_size_Raise in Hms as ->.
    destruct (negative_size_raises t (-1) (-1) pad_value) as [_ ->]; [lia|done].
Qed.

Lemma single_image_is_general_without_square_witness :
  from_tensors [const_image [2%nat] 20 17 7] 8 0 None
  = general_path [const_image [2%nat] 20 17 7]
      (image_sizes_of [const_image [2%nat] 20 17 7])
      (target_size (image_sizes_of [const_image [2%nat] 20 17 7]) 8 None) 0.
Proof.
  apply single_image_is_general_without_square.
  - split; [reflexivity|]. repeat constructor.
  - simpl. lia.
Defined.

(** Apart from one image under a square size, indexing a batch built from
    well-formed images gives back image [i]: its shape and its elements. *)
Theorem getitem_returns_the_image {A} (tensors : list (Tensor A))
    (size_divisibility : Z) (pad_value : A)
    (padding_constraints : option (gmap string Z)) (b : ImageList A)
    (i : nat) (img : Tensor A) :
  from_tensors tensors size_divisibility pad_value padding_constraints = Ok b ->
  Forall wf_tensor tensors ->
  length tensors <> 1%nat \/ square_size_of padding_constraints <= 0 ->
  tensors !! i = Some img ->
  exists t,
    getitem b (Z.of_nat i) = Ok t /\
    shape t = shape img /\ t_planes t = t_planes img.
Proof.
  intros Hb Hwf Hcase Himg.
  pose proof (built_images_fit _ _ _ _ _ Hb Hcase) as Hfit.
  by eapply getitem_roundtrip_when_images_fit.
Qed.

Lemma getitem_returns_the_image_witness :
  exists b t,
    from_tensors two_images 32 0 None = Ok b /\
    getitem b 1 = Ok t /\
    shape t = [16; 33]%nat /\
    t_planes t = [replicate 16 (replicate 33 7)].
Proof.
  destruct (from_tensors two_images 32 0 None) as [b|e] eqn:Hb;
    [|vm_compute in Hb; discriminate].
  destruct (getitem_returns_the_image two_images 32 0 None b 1
              (const_image [] 16 33 7) Hb)
    as (t & Ht & Hs & Hp).
  - repeat constructor.
  - left. discriminate.
  - reflexivity.
  - by exists b, t.
Defined.

(** Apart from one image under a square size, the data of a batch built
    from well-formed images holds, under index [i], image [i] in the
    top-left corner and the pad value everywhere else: padding is added
    on the bottom and on the right only. *)
Theorem data_is_image_then_pad_value {A} (tensors : list (Tensor A))
    (size_divisibility : Z) (pad_value : A)
    (padding_constraints : option (gmap string Z)) (b : ImageList A)
    (i : nat) (img : Tensor A) (p y x : nat) :
  from_tensors tensors size_divisibility pad_value padding_constraints = Ok b ->
  Forall wf_tensor tensors ->
  length tensors <> 1%nat \/ square_size_of padding_constraints <= 0 ->
  tensors !! i = Some img ->
  (p < prod_list (t_lead img))%nat ->
  (y < t_h (tensor b))%nat -> (x < t_w (tensor b))%nat ->
  t_at (tensor b) (i * prod_list (t_lead img) + p) y x
  = if (y <? t_h img)%nat && (x <? t_w img)%nat
    then t_at img p y x
    else Some pad_value.
Proof.
  intros Hb Hwf Hcase Himg Hp Hy Hx.
  pose proof (built_images_fit _ _ _ _ _ Hb Hcase) as Hfit.
  pose proof (built_by_general_path _ _ _ _ _ Hb Hwf Hfit) as Hgen.
  pose proof (from_tensors_Ok _ _ _ _ _ Hb)
    as (t0 & rest & Hts & Hcheck & _ & Hh & Hw & _).
  apply check_leading_Ok_inv in Hcheck. cbn zeta in Hh, Hw.
  destruct (target_size (image_sizes_of tensors) size_divisibility
              padding_constraints) as [H W].
  cbn [fst snd] in *.
  destruct (general_path_blocks tensors H W pad_value b t0 i img)
    as [_ Hblock]; [done | by rewrite Hts | done | done | done | done |].
  assert (Hin : img ∈ tensors) by (by eapply list_elem_of_lookup_2).
  rewrite Forall_forall in Hcheck, Hwf, Hfit.
  pose proof (Hcheck img Hin) as Hl. destruct (Hwf img Hin) as [Hlen Hplanes].
  rewrite <- Hl in Hblock.
  unfold t_at. rewrite <- (sub_planes_lookup _ _ _ _ Hp), Hblock.
  rewrite list_lookup_fmap.
  destruct (lookup_lt_is_Some_2 (t_planes img) p) as [pl Hpl]; [by rewrite Hlen|].
  rewrite Hpl. cbn [fmap option_fmap option_map mbind option_bind].
  assert (Hwfpl : wf_plane (t_h img) (t_w img) pl).
  { rewrite Forall_forall in Hplanes. eapply Hplanes, list_elem_of_lookup_2, Hpl. }
  destruct Hwfpl as [Hrows Hcols].
  assert (HyH : (y < Z.to_nat H)%nat) by lia.
  assert (HxW : (x < Z.to_nat W)%nat) by lia.
  destruct (Nat.ltb_spec y (t_h img)) as [Hyh|Hyh]; cbn [andb].
  - rewrite lookup_resize by (rewrite ?length_fmap; lia).
    rewrite list_lookup_fmap.
    destruct (lookup_lt_is_Some_2 pl y) as [row Hrow]; [lia|].
    rewrite Hrow. cbn [fmap option_fmap option_map mbind option_bind].
    assert (Hlrow : length row = t_w img).
    { rewrite Forall_forall in Hcols. eapply Hcols, list_elem_of_lookup_2, Hrow. }
    destruct (Nat.ltb_spec x (t_w img)) as [Hxw|Hxw].
    + by rewrite lookup_resize by lia.
    + by rewrite lookup_resize_new by lia.
  - rewrite lookup_resize_new by (rewrite ?length_fmap; lia).
    cbn [mbind option_bind]. by rewrite lookup_replicate_2.
Qed.

Lemma data_is_image_then_pad_value_witness :
  exists b,
    from_tensors two_images 0 9 None = Ok b /\
    t_at (tensor b) 1 15 32 = Some 7 /\
    t_at (tensor b) 1 16 0 = Some 9.
Proof.
  destruct (from_tensors two_images 0 9 None) as [b|e] eqn:Hb;
    [|vm_compute in Hb; discriminate].
  assert (Hwf : Forall wf_tensor two_images) by repeat constructor.
  assert (Hh : t_h (tensor b) = 40%nat /\ t_w (tensor b) = 33%nat).
  { pose proof (from_tensors_Ok _ _ _ _ _ Hb) as (_ & _ & _ & _ & _ & Hh & Hw & _).
    cbn zeta in Hh, Hw. change (target_size _ _ _) with (40, 33) in Hh, Hw.
    cbn [fst snd] in Hh, Hw. lia. }
  destruct Hh as [Hh Hw].
  exists b. split; [done|]. split.
  - apply (data_is_image_then_pad_value two_images 0 9 None b 1
             (const_image [] 16 33 7) 0 15 32 Hb Hwf);
      [left; discriminate | reflexivity | simpl; lia | lia | lia].
  - apply (data_is_image_then_pad_value two_images 0 9 None b 1
             (const_image [] 16 33 7) 0 16 0 Hb Hwf);
      [left; discriminate | reflexivity | simpl; lia | lia | lia].
Defined.

Lemma Forall_blocks {B} (P : B -> Prop) (l : list B) (n k : nat) :
  length l = (n * k)%nat ->
  (forall i, (i < n)%nat -> Forall P (sub_planes k i l)) ->
  Forall P l.
Proof.
  intros Hlen Hblocks. apply Forall_lookup. intros q x Hq.
  pose proof (lookup_lt_Some _ _ _ Hq) as Hlt. rewrite Hlen in Hlt.
  assert (Hk : (0 < k)%nat) by nia.
  pose proof (Nat.div_mod_eq q k) as Hdm.
  pose proof (Nat.mod_upper_bound q k ltac:(lia)) as Hmod.
  assert (Hi : (q / k < n)%nat) by (apply Nat.Div0.div_lt_upper_bound; lia).
  specialize (Hblocks _ Hi). rewrite Forall_lookup in Hblocks.
  apply (Hblocks (q mod k)%nat).
  rewrite sub_planes_lookup by done.
  by replace (q / k * k + q mod k)%nat with q by lia.
Qed.

(** A batch built from well-formed images is well formed: the data holds
    one plane of the padded size per image and leading index, and the
    mask one row per image, all of one length. *)
Theorem built_batch_well_formed {A} (tensors : list (Tensor A))
    (size_divisibility : Z) (pad_value : A)
    (padding_constraints : option (gmap string Z)) (b : ImageList A) :
  from_tensors tensors size_divisibility pad_value padding_constraints = Ok b ->
  Forall wf_tensor tensors ->
  wf_tensor (tensor b) /\ wf_tensor (padding_mask b).
Proof.
  intros Hb Hwf. split.
  - pose proof (built_padded_size_ge_16 _ _ _ _ _ Hb) as [H16 W16].
    pose proof (from_tensors_Ok _ _ _ _ _ Hb)
      as (t0 & rest & -> & _ & Hlead & Hh & Hw & _).
    pose proof (from_tensors_branch _ _ _ _ _ Hb) as (t0' & rest' & [= <- <-] & Hleads & Hbr).
    cbn zeta in *.
    destruct (target_size (image_sizes_of (t0 :: rest)) size_divisibility
                padding_constraints) as [H W] eqn:Hts.
    cbn [fst snd] in *.
    destruct Hbr as [[Hone Hbr]|[Hne Hbr]].
    + change (image_sizes_of (t0 :: rest))
        with ((Z.of_nat (t_h t0), Z.of_nat (t_w t0)) :: image_sizes_of rest) in Hbr.
      apply single_image_path_Ok in Hbr as (padded & m & Hp & _ & ->).
      apply Forall_cons in Hwf as [Hwf0 _]. cbn [fst snd] in Hp.
      rewrite pad_wf in Hp by (done || lia). injection Hp as <-.
      unfold wf_tensor. cbn [tensor unsqueeze0 t_lead t_h t_w t_planes].
      destruct Hwf0 as [Hlen _]. split.
      * rewrite length_fmap, Hlen. unfold prod_list. simpl. lia.
      * apply Forall_fmap, Forall_forall. intros p _. apply wf_padded_plane.
    + assert (Hfit : Forall (fun t => Z.of_nat (t_h t) <= H /\
                                      Z.of_nat (t_w t) <= W) (t0 :: rest)).
      { pose proof (built_images_fit _ _ _ _ _ Hb (or_introl Hne)) as Hfit.
        by rewrite Hts in Hfit. }
      assert (Hblocks : forall i img, (t0 :: rest) !! i = Some img ->
        length (t_planes (tensor b))
          = (length (t0 :: rest) * prod_list (t_lead t0))%nat /\
        sub_planes (prod_list (t_lead t0)) i (t_planes (tensor b))
        = (fun p => resize (Z.to_nat H) (replicate (Z.to_nat W) pad_value)
                      (resize (Z.to_nat W) pad_value <$> p)) <$> t_planes img).
      { intros i img Himg. by eapply general_path_blocks. }
      unfold wf_tensor. rewrite Hlead.
      replace (t_h (tensor b)) with (Z.to_nat H) by lia.
      replace (t_w (tensor b)) with (Z.to_nat W) by lia.
      destruct (Hblocks 0%nat t0 eq_refl) as [Hlen _].
      split; [exact Hlen|].
      apply (Forall_blocks _ _ _ _ Hlen). intros i Hi.
      destruct (lookup_lt_is_Some_2 (t0 :: rest) i Hi) as [img Himg].
      destruct (Hblocks i img Himg) as [_ ->].
      apply Forall_fmap, Forall_forall. intros p _. apply wf_padded_plane.
  - apply from_tensors_Ok in Hb as (t0 & rest & -> & _ & _ & _ & _ & _ & Hm).
    cbn zeta in Hm.
    apply create_attention_mask_Ok
      in Hm as (rows & Hrows & Hlead & Hmh & Hplanes & Hlen).
    unfold wf_tensor, wf_plane. rewrite Hlead, Hplanes, Hmh.
    split; [done|]. constructor; [|constructor].
    split; [|done]. symmetry. exact (Forall2_length _ _ _ Hrows).
Qed.

Lemma built_batch_well_formed_witness :
  exists b,
    from_tensors two_images 32 0 None = Ok b /\
    wf_tensor (tensor b) /\ wf_tensor (padding_mask b).
Proof.
  destruct (from_tensors two_images 32 0 None) as [b|e] eqn:Hb;
    [|vm_compute in Hb; discriminate].
  exists b. split; [done|].
  apply (built_batch_well_formed two_images 32 0 None b Hb).
  repeat constructor.
Defined.

(** ** One image: padded or cut to the padded size *)

Lemma lookup_padded_plane {A} (pl : list (list A)) (h w H W : nat) (v : A)
    (y x : nat) :
  wf_plane h w pl -> (y < H)%nat -> (x < W)%nat ->
  (row ← resize H (replicate W v) (resize W v <$> pl) !! y; row !! x)
  = if (y <? h)%nat && (x <? w)%nat then row ← pl !! y; row !! x else Some v.
Proof.
  intros [Hrows Hcols] Hy Hx.
  destruct (Nat.ltb_spec y h) as [Hyh|Hyh]; cbn [andb].
  - rewrite lookup_resize by (rewrite ?length_fmap; lia).
    rewrite list_lookup_fmap.
    destruct (lookup_lt_is_Some_2 pl y) as [row Hrow]; [lia|].
    rewrite Hrow. cbn [fmap option_fmap option_map mbind option_bind].
    assert (Hlrow : length row = w).
    { rewrite Forall_forall in Hcols. eapply Hcols, list_elem_of_lookup_2, Hrow. }
    destruct (Nat.ltb_spec x w) as [Hxw|Hxw].
    + by rewrite lookup_resize by lia.
    + by rewrite lookup_resize_new by lia.
  - rewrite lookup_resize_new by (rewrite ?length_fmap; lia).
    cbn [mbind option_bind]. by rewrite lookup_replicate_2.
Qed.

(** For a single well-formed image, under any configuration, the data of
    the built batch is the image padded or cut to the padded size: inside
    both the image and the padded size it holds the image's elements, and
    outside the image it holds the pad value.  The top-left corner is what
    is kept when the padded size is smaller than the image. *)
Theorem single_image_data_is_padded_or_cut {A} (t : Tensor A)
    (size_divisibility : Z) (pad_value : A)
    (padding_constraints : option (gmap string Z)) (b : ImageList A)
    (p y x : nat) :
  from_tensors [t] size_divisibility pad_value padding_constraints = Ok b ->
  wf_tensor t ->
  (p < prod_list (t_lead t))%nat ->
  (y < t_h (tensor b))%nat -> (x < t_w (tensor b))%nat ->
  t_at (tensor b) p y x
  = if (y <? t_h t)%nat && (x <? t_w t)%nat
    then t_at t p y x
    else Some pad_value.
Proof.
  intros Hb Hwf Hp Hy Hx.
  pose proof (built_padded_size_ge_16 _ _ _ _ _ Hb) as [H16 W16].
  pose proof (from_tensors_Ok _ _ _ _ _ Hb)
    as (t0 & rest & [= <- <-] & _ & _ & Hh & Hw & _).
  apply from_tensors_branch in Hb as (t0 & rest & [= <- <-] & _ & Hbr).
  cbn zeta in *.
  destruct (target_size (image_sizes_of [t]) size_divisibility
              padding_constraints) as [H W].
  cbn [fst snd] in *.
  destruct Hbr as [[_ Hbr]|[Hne _]]; [|done].
  change (image_sizes_of [t]) with [(Z.of_nat (t_h t), Z.of_nat (t_w t))] in Hbr.
  apply single_image_path_Ok in Hbr as (padded & m & Hpad & _ & ->).
  cbn [fst snd] in Hpad. rewrite pad_wf in Hpad by (done || lia).
  injection Hpad as <-.
  cbn [tensor unsqueeze0 t_h t_w] in Hy, Hx.
  unfold t_at. cbn [tensor unsqueeze0 t_planes].
  destruct Hwf as [Hlen Hplanes].
  destruct (lookup_lt_is_Some_2 (t_planes t) p) as [pl Hpl]; [by rewrite Hlen|].
  rewrite list_lookup_fmap, Hpl.
  cbn [fmap option_fmap option_map mbind option_bind].
  apply lookup_padded_plane; [|done|done].
  rewrite Forall_forall in Hplanes. eapply Hplanes, list_elem_of_lookup_2, Hpl.
Qed.

Lemma single_image_data_is_padded_or_cut_witness :
  exists b,
    from_tensors [mkTensor [] 18 17 [(fun y => (fun x => Z.of_nat (y + x))
                                        <$> seq 0 17) <$> seq 0 18] cpu]
      0 0 (square_constraint 16) = Ok b /\
    t_at (tensor b) 0 15 15 = Some 30.
Proof.
  destruct (from_tensors _ 0 0 (square_constraint 16)) as [b|e] eqn:Hb;
    [|vm_compute in Hb; discriminate].
  exists b. split; [done|].
  assert (Hh : t_h (tensor b) = 16%nat /\ t_w (tensor b) = 16%nat).
  { pose proof (from_tensors_Ok _ _ _ _ _ Hb) as (_ & _ & _ & _ & _ & Hh & Hw & _).
    cbn zeta in Hh, Hw. change (target_size _ _ _) with (16, 16) in Hh, Hw.
    cbn [fst snd] in Hh, Hw. lia. }
  destruct Hh as [Hh Hw].
  apply (single_image_data_is_padded_or_cut _ 0 0 (square_constraint 16) b
           0 15 15 Hb); [|simpl; lia|lia|lia].
  split; [reflexivity|]. repeat constructor.
Defined.

(** ** The padded size does not depend on the order of the images *)

Lemma is_max_of_unique (m m' : Z) (l l' : list Z) :
  l ≡ₚ l' -> is_max_of m l -> is_max_of m' l' -> m = m'.
Proof.
  intros Hperm [Hin Hall] [Hin' Hall'].
  rewrite Forall_forall in Hall, Hall'.
  apply list_elem_of_In in Hin, Hin'.
  assert (m <= m') by (apply Hall'; by rewrite <- Hperm).
  assert (m' <= m) by (apply Hall; by rewrite Hperm).
  lia.
Qed.

Theorem target_size_order_independent (sizes sizes' : list (Z * Z))
    (size_divisibility : Z) (padding_constraints : option (gmap string Z)) :
  sizes ≡ₚ sizes' ->
  target_size sizes size_divisibility padding_constraints
  = target_size sizes' size_divisibility padding_constraints.
Proof.
  intros Hperm.
  assert (Hmax : max_hw sizes = max_hw sizes').
  { destruct sizes as [|s l].
    - apply Permutation_nil_l in Hperm. by subst.
    - destruct sizes' as [|s' l'].
      { by apply Permutation_nil_r in Hperm. }
      destruct (max_hw_is_max (s :: l)) as [H1 W1]; [done|].
      destruct (max_hw_is_max (s' :: l')) as [H2 W2]; [done|].
      apply (is_max_of_unique _ _ _ _ (fmap_Permutation fst _ _ Hperm) H1) in H2.
      apply (is_max_of_unique _ _ _ _ (fmap_Permutation snd _ _ Hperm) W1) in W2.
      destruct (max_hw (s :: l)), (max_hw (s' :: l')). simpl in *. congruence. }
  assert (Hall :
    forallb (fun s : Z * Z => in_int64 s.1 && in_int64 s.2) sizes
    = forallb (fun s : Z * Z => in_int64 s.1 && in_int64 s.2) sizes').
  { apply eq_true_iff_eq. rewrite !forallb_in_int64. by rewrite Hperm. }
  unfold target_size, compute_max_size. by rewrite Hmax, Hall.
Qed.

Lemma target_size_order_independent_witness :
  target_size [(40, 20); (16, 33)] 32 None
  = target_size [(16, 33); (40, 20)] 32 None.
Proof.
  apply target_size_order_independent. apply Permutation_swap.
Defined.

(** ** Which exceptions the builder raises *)

Section BuilderErrors.
Context {A : Type}.
Implicit Types (t img dst : Tensor A) (tensors : list (Tensor A)).

Lemma pad_Raise {B} (t : Tensor B) padding (v : B) e :
  pad t padding v = Raise e -> e = RuntimeError.
Proof.
  unfold pad. destruct padding as [[[pl pr] pt] pb].
  destruct (_ || _); [by intros [= <-] | discriminate].
Qed.

Lemma avg_pool2d_Raise (t : Tensor Q) k e :
  avg_pool2d t k = Raise e -> e = RuntimeError.
Proof.
  unfold avg_pool2d. destruct (negb _); [by intros [= <-]|].
  destruct (k <=? 0); [by intros [= <-]|].
  destruct (_ || _); [by intros [= <-] | discriminate].
Qed.

Lemma attention_mask_1d_Raise img max_size ps e :
  attention_mask_1d img max_size ps = Raise e -> e = RuntimeError.
Proof.
  unfold attention_mask_1d. intros H.
  apply bind_Raise in H as [H|(padded & _ & H)]; [by eapply pad_Raise|].
  apply bind_Raise in H as [H|(pooled & _ & H)]; [by eapply avg_pool2d_Raise|].
  apply bind_Raise in H as [H|(v & _ & H)]; [|discriminate].
  unfold cat in H. destruct (bool_decide _); [discriminate|].
  by injection H as <-.
Qed.

Lemma mapM_Raise {T U} (f : T -> result U) (l : list T) e :
  mapM f l = Raise e -> exists x, x ∈ l /\ f x = Raise e.
Proof.
  induction l as [|x l IH]; simpl; [discriminate|].
  destruct (f x) as [y|e'] eqn:Hx; cbn [mbind result_bind].
  - destruct (mapM f l) as [k|e''] eqn:Hl; cbn [mbind result_bind];
      [discriminate|].
    intros [= <-]. destruct (IH eq_refl) as (x' & Hin & Hx').
    exists x'. split; [by right | done].
  - intros [= <-]. exists x. split; [by left | done].
Qed.

Lemma create_attention_mask_Raise tensors max_size ps e :
  create_attention_mask tensors max_size ps = Raise e -> e = RuntimeError.
Proof.
  unfold create_attention_mask.
  destruct (mapM _ tensors) as [rows|e'] eqn:Hrows; cbn [mbind result_bind].
  - unfold stack_rows. destruct rows as [|r0 rows]; [by intros [= <-]|].
    destruct (forallb _ _); [discriminate | by intros [= <-]].
  - intros [= <-]. apply mapM_Raise in Hrows as (img & _ & H1d).
    by eapply attention_mask_1d_Raise.
Qed.

Lemma copy_all_Raise tensors : forall dst i n lead e,
  t_lead dst = n :: lead -> (i + length tensors <= n)%nat ->
  copy_all dst i tensors = Raise e -> e = RuntimeError.
Proof.
  induction tensors as [|img rest IH]; intros dst i n lead e Hlead Hi;
    cbn [copy_all length] in *; [discriminate|].
  destruct (copy_into dst i img) as [dst'|e'] eqn:Hc; cbn [mbind result_bind].
  - apply copy_into_Ok in Hc as (Hl & _). rewrite Hlead in Hl.
    apply (IH dst' (S i) n lead e Hl). lia.
  - intros [= <-]. unfold copy_into in Hc. rewrite Hlead in Hc.
    destruct (Nat.ltb_spec i n); [|lia]. cbn [negb] in Hc.
    destruct (_ && _); [discriminate | by injection Hc as <-].
Qed.

Lemma general_path_Raise t0 rest sizes max_size (pv : A) e :
  general_path (t0 :: rest) sizes max_size pv = Raise e -> e = RuntimeError.
Proof.
  unfold general_path.
  destruct (new_full _ _ _ _ _) as [full|e'] eqn:Hf; cbn [mbind result_bind].
  - apply new_full_Ok in Hf as (Hl & _).
    destruct (copy_all _ 0 _) as [data|e''] eqn:Hc; cbn [mbind result_bind].
    + destruct (create_attention_mask _ _ _) as [m|e3] eqn:Hm;
        cbn [mbind result_bind]; [discriminate|].
      intros [= <-]. by eapply create_attention_mask_Raise.
    + intros [= <-].
      eapply (copy_all_Raise (t0 :: rest) _ 0 (length (t0 :: rest)) (t_lead t0));
        [|simpl; lia|exact Hc].
      by cbn [move_device_like tensor_to t_lead].
  - intros [= <-]. unfold new_full in Hf.
    destruct (_ || _); [by injection Hf as <- | discriminate].
Qed.

Lemma single_image_path_Raise t0 rest s0 sizes max_size (pv : A) e :
  single_image_path (t0 :: rest) (s0 :: sizes) max_size pv = Raise e ->
  e = RuntimeError.
Proof.
  unfold single_image_path.
  destruct (pad _ _ _) as [padded|e'] eqn:Hp;
    cbn [fmap result_fmap mbind result_bind].
  - destruct (create_attention_mask _ _ _) as [m|e3] eqn:Hm;
      cbn [mbind result_bind]; [discriminate|].
    intros [= <-]. by eapply create_attention_mask_Raise.
  - intros [= <-]. by eapply pad_Raise.
Qed.
End BuilderErrors.

(** The builder raises an assertion error only for an empty list (no
    message) or for an image whose leading dimensions differ from the
    first image's (its shape as message); every other failure is a
    runtime error of the tensor library, on a non-empty list with
    matching leading dimensions.  It never raises an index error. *)
Theorem from_tensors_error_kinds {A} (tensors : list (Tensor A))
    (size_divisibility : Z) (pad_value : A)
    (padding_constraints : option (gmap string Z)) (e : exn) :
  from_tensors tensors size_divisibility pad_value padding_constraints
    = Raise e ->
  (tensors = [] /\ e = AssertionError []) \/
  (exists t0 t, head tensors = Some t0 /\ t ∈ tensors /\
                t_lead t <> t_lead t0 /\ e = AssertionError [shape t]) \/
  (exists t0, head tensors = Some t0 /\
              Forall (fun t => t_lead t = t_lead t0) tensors /\
              e = RuntimeError).
Proof.
  unfold from_tensors. destruct tensors as [|t0 rest].
  { intros [= <-]. by left. }
  intros He. right.
  destruct (decide (Forall (fun t => t_lead t = t_lead t0) (t0 :: rest)))
    as [Hall|Hex].
  - rewrite check_leading_Ok in He by done. cbn [mbind result_bind] in He.
    right. exists t0. split; [done|]. split; [done|].
    apply bind_Raise in He as [He|(max_size & _ & He)];
      [by eapply compute_max_size_Raise|].
    destruct (length (t0 :: rest) =? 1)%nat.
    + by eapply single_image_path_Raise.
    + by eapply general_path_Raise.
  - apply not_Forall_Exists in Hex; [|intros t; apply _].
    destruct (check_leading_Raise t0 (t0 :: rest)) as (t & Hin & Hne & Hr).
    { eapply Exists_impl; [exact Hex|]. by intros t Ht. }
    rewrite Hr in He. cbn [mbind result_bind] in He. injection He as <-.
    left. by exists t0, t.
Qed.

Lemma from_tensors_error_kinds_witness :
  exists t0,
    head [const_image [] 10 10 7] = Some t0 /\
    Forall (fun t => t_lead t = t_lead t0) [const_image [] 10 10 7].
Proof.
  destruct (from_tensors_error_kinds [const_image [] 10 10 7] 0 0 None
              RuntimeError) as [[Hnil _]|[(t0 & t & _ & _ & _ & He)|(t0 & H0 & Hall & _)]].
  - vm_compute. reflexivity.
  - discriminate.
  - discriminate.
  - by exists t0.
Defined.
